(** * A single-accumulator computer: RAM, Bus, CPU and the quick assembler

    Shallow embedding of [src/sample1.jsx].  JavaScript numbers that the
    program only ever uses as integers are modelled as [Z]; the bitwise
    [x & 0xff] is [Z.land x 255] (two's complement on both sides), the
    remainder [%] is the truncating [Z.rem].  Objects mutated in place
    (the RAM array, the bus lines, the CPU registers) live in one machine
    state that every operation takes and returns; callbacks (bus listeners,
    the step observer, the deferred bus clear) are modelled by the events an
    operation emits, in call order. *)

From Stdlib Require Import ZArith Lia Ascii String.
From stdpp Require Import base numbers list strings gmap pretty.

Local Open Scope Z_scope.

(** ** The instruction set ([OPCODES]) *)

Module OPCODES.
Definition NOP : Z := 0.
Definition LOAD : Z := 1.
Definition STORE : Z := 2.
Definition ADD : Z := 3.
Definition SUB : Z := 4.
Definition JMP : Z := 5.
Definition JZ : Z := 6.
Definition OUT : Z := 7.
Definition HALT : Z := 255.

(** The object's own entries, in declaration order
    ([Object.entries(OPCODES)]). *)
Definition entries : list (string * Z) :=
  [("NOP", NOP); ("LOAD", LOAD); ("STORE", STORE); ("ADD", ADD);
   ("SUB", SUB); ("JMP", JMP); ("JZ", JZ); ("OUT", OUT); ("HALT", HALT)]%string.
End OPCODES.

(** ** Memory ([class RAM]) *)

Module RAM.
Record t : Type := mk { size : Z; data : list Z }.

(** [new RAM(size)]: [new Array(size).fill(0)]. *)
Definition new (size : Z) : t :=
  {| size := size; data := replicate (Z.to_nat size) 0 |}.

(** [_wrap(addr)]: [((addr % this.size) + this.size) % this.size], with
    the truncating remainder of JavaScript. *)
Definition _wrap (m : t) (addr : Z) : Z :=
  Z.rem (Z.rem addr (size m) + size m) (size m).

(** [read(addr)]: [this.data[this._wrap(addr)]].  On a well-formed
    memory (see [wf]) the index is always inside the array; the default
    is never reached there. *)
Definition read (m : t) (addr : Z) : Z :=
  let addr := _wrap m addr in
  default 0 (data m !! Z.to_nat addr).

(** [write(addr, value)]: [this.data[this._wrap(addr)] = value & 0xff]. *)
Definition write (m : t) (addr value : Z) : t :=
  let addr := _wrap m addr in
  {| size := size m; data := <[Z.to_nat addr := Z.land value 255]> (data m) |}.

(** [ram.data.fill(value)]: the array's own [fill], which the driver
    calls on the backing array for full clears (always with 0).  It is no
    method of the class. *)
Definition data_fill (m : t) (value : Z) : t :=
  {| size := size m; data := replicate (length (data m)) value |}.

(** The methods the class body declares, in order. *)
Definition methods : list string :=
  ["constructor"; "read"; "write"; "_wrap"]%string.

(** The functions every object inherits from [Object.prototype]. *)
Definition Object_prototype_functions : list string :=
  ["constructor"; "__defineGetter__"; "__defineSetter__"; "hasOwnProperty";
   "__lookupGetter__"; "__lookupSetter__"; "isPrototypeOf";
   "propertyIsEnumerable"; "toString"; "valueOf"; "toLocaleString"]%string.

(** [typeof m[name]] for an instance [m]: its own fields [size] and
    [data], then the class's methods, then what [Object.prototype]
    gives; any other name is [undefined], and calling it is a
    [TypeError]. *)
Inductive js_type : Type := TNumber | TObject | TFunction | TUndefined.

Definition typeof_member (name : string) : js_type :=
  if decide (name = "size"%string) then TNumber
  else if decide (name = "data"%string) then TObject
  else if decide (name ∈ methods) then TFunction
  else if decide (name ∈ Object_prototype_functions) then TFunction
  else if decide (name = "__proto__"%string) then TObject
  else TUndefined.

(** What the constructor establishes for a positive integer capacity and
    every operation keeps: the array has exactly [size] cells. *)
Definition wf (m : t) : Prop :=
  0 < size m ∧ Z.of_nat (length (data m)) = size m.
End RAM.

(** ** What observers see *)

(** The bus lines object [{addr, data, control}]; [None] is [null]. *)
Record bus_lines : Type := mkLines {
  l_addr : option Z;
  l_data : option Z;
  l_control : option string
}.

(** The object handed to the step observer:
    [{action, pc, acc, ir, flags: {zero}}]. *)
Record snapshot : Type := mkSnapshot {
  action : string;
  pc : Z;
  acc : Z;
  ir : Z;
  flags_zero : bool
}.

(** Calls that leave the core, in the order they are made. *)
Inductive event : Type :=
  | BusListener (cb : nat) (l : bus_lines)  (* listener [cb] called with the lines *)
  | OnStep (s : snapshot)                   (* [this.onStep(s)] *)
  | DeferBusClear.                          (* [setTimeout(() => this.bus.clear(), 300)] *)

(** ** The channel ([class Bus]) *)

Module Bus.
(** Listeners are callbacks; the model names each one by a number. *)
Record t : Type := mk { lines : bus_lines; listeners : list nat }.

(** An object literal passed to [send]: a field is [None] when the
    literal leaves the key out, [Some v] when it sets it to [v]. *)
Record packet : Type := mkPacket {
  p_addr : option (option Z);
  p_data : option (option Z);
  p_control : option (option string)
}.

Definition null_lines : bus_lines :=
  {| l_addr := None; l_data := None; l_control := None |}.

Definition new : t := {| lines := null_lines; listeners := [] |}.

(** [{ ...this.lines, ...packet }]: keys of the packet replace, the
    other keys stay. *)
Definition spread (l : bus_lines) (p : packet) : bus_lines :=
  {| l_addr := default (l_addr l) (p_addr p);
     l_data := default (l_data l) (p_data p);
     l_control := default (l_control l) (p_control p) |}.

(** [_notify()]: every listener, in registration order. *)
Definition _notify (b : t) : list event :=
  map (λ cb, BusListener cb (lines b)) (listeners b).

Definition send (b : t) (p : packet) : t * list event :=
  let b' := {| lines := spread (lines b) p; listeners := listeners b |} in
  (b', _notify b').

Definition clear (b : t) : t * list event :=
  let b' := {| lines := null_lines; listeners := listeners b |} in
  (b', _notify b').

Definition onChange (b : t) (cb : nat) : t :=
  {| lines := lines b; listeners := listeners b ++ [cb] |}.
End Bus.

(** ** The processing unit ([class CPU]) *)

(** What [step()] returns: [{ type: "HALT" }] when halted, else
    [{ pc, acc, ir, flags: { zero } }]. *)
Inductive step_result : Type :=
  | HaltSentinel
  | StepState (pc acc ir : Z) (zero : bool).

Module CPU.
(** The unit together with the memory and the channel it is bound to.
    [onStep] records whether the property holds a function (the guard
    [if (this.onStep)] in [_tick]). *)
Record t : Type := mk {
  ram : RAM.t;
  bus : Bus.t;
  PC : Z;
  ACC : Z;
  IR : Z;
  zero : bool;
  halted : bool;
  onStep : bool
}.

Definition new (ram : RAM.t) (bus : Bus.t) : t :=
  {| ram := ram; bus := bus; PC := 0; ACC := 0; IR := 0;
     zero := false; halted := false; onStep := true |}.

(** *** Imperative code as state passing with an event log *)

Definition M (A : Type) : Type := t → A * t * list event.

Definition ret {A} (a : A) : M A := λ c, (a, c, []).

Definition bind {A B} (k : A → M B) (m : M A) : M B :=
  λ c, let '(a, c1, e1) := m c in
       let '(b, c2, e2) := k a c1 in
       (b, c2, e1 ++ e2).

#[global] Instance M_ret : MRet M := @ret.
#[global] Instance M_bind : MBind M := @bind.

Definition gets {A} (f : t → A) : M A := λ c, (f c, c, []).
Definition modify (f : t → t) : M unit := λ c, (tt, f c, []).
Definition emit (e : event) : M unit := λ c, (tt, c, [e]).

Definition set_ram (m : RAM.t) (c : t) : t :=
  mk m (bus c) (PC c) (ACC c) (IR c) (zero c) (halted c) (onStep c).
Definition set_bus (b : Bus.t) (c : t) : t :=
  mk (ram c) b (PC c) (ACC c) (IR c) (zero c) (halted c) (onStep c).
Definition set_PC (v : Z) (c : t) : t :=
  mk (ram c) (bus c) v (ACC c) (IR c) (zero c) (halted c) (onStep c).
Definition set_ACC (v : Z) (c : t) : t :=
  mk (ram c) (bus c) (PC c) v (IR c) (zero c) (halted c) (onStep c).
Definition set_IR (v : Z) (c : t) : t :=
  mk (ram c) (bus c) (PC c) (ACC c) v (zero c) (halted c) (onStep c).
Definition set_zero (v : bool) (c : t) : t :=
  mk (ram c) (bus c) (PC c) (ACC c) (IR c) v (halted c) (onStep c).
Definition set_halted (v : bool) (c : t) : t :=
  mk (ram c) (bus c) (PC c) (ACC c) (IR c) (zero c) v (onStep c).
Definition set_onStep (v : bool) (c : t) : t :=
  mk (ram c) (bus c) (PC c) (ACC c) (IR c) (zero c) (halted c) v.

(** *** Calls into the memory and the channel *)

Definition ram_read (addr : Z) : M Z := gets (λ c, RAM.read (ram c) addr).

Definition ram_write (addr value : Z) : M unit :=
  modify (λ c, set_ram (RAM.write (ram c) addr value) c).

Definition bus_send (p : Bus.packet) : M unit :=
  λ c, let '(b, es) := Bus.send (bus c) p in (tt, set_bus b c, es).

(** [this.ram.read(this.PC++)] *)
Definition read_operand : M Z :=
  p ← gets PC;
  modify (set_PC (p + 1));;
  ram_read p.

(** [this.flags.zero = this.ACC === 0] *)
Definition update_zero : M unit :=
  a ← gets ACC;
  modify (set_zero (a =? 0)).

(** [_tick(action)] *)
Definition _tick (action : string) : M unit :=
  f ← gets onStep;
  if f : bool then
    c ← gets id;
    emit (OnStep {| action := action; pc := PC c; acc := ACC c;
                    ir := IR c; flags_zero := zero c |})
  else mret tt.

(** [loadProgram(program, start = 0)] *)
Definition loadProgram (program : list Z) (start : Z) (c : t) : t :=
  let m := foldl (λ m '(i, b), RAM.write m (start + Z.of_nat i) b)
                 (ram c) (imap pair program) in
  set_PC start (set_ram m c).

(** [step()] *)
Definition step : M step_result :=
  h ← gets halted;
  if h : bool then mret HaltSentinel else
  (* fetch *)
  p ← gets PC;
  bus_send (Bus.mkPacket (Some (Some p)) None (Some (Some "FETCH"%string)));;
  instr ← ram_read p;
  modify (set_IR instr);;
  p ← gets PC;
  modify (set_PC (p + 1));;
  (* decode + execute *)
  (if instr =? OPCODES.NOP then
     _tick "NOP"
   else if instr =? OPCODES.LOAD then
     addr ← read_operand;
     bus_send (Bus.mkPacket (Some (Some addr)) None (Some (Some "READ"%string)));;
     val ← ram_read addr;
     modify (set_ACC val);;
     update_zero;;
     _tick ("LOAD " +:+ pretty addr)
   else if instr =? OPCODES.STORE then
     addr ← read_operand;
     a ← gets ACC;
     bus_send (Bus.mkPacket (Some (Some addr)) (Some (Some a)) (Some (Some "WRITE"%string)));;
     a ← gets ACC;
     ram_write addr a;;
     _tick ("STORE " +:+ pretty addr)
   else if instr =? OPCODES.ADD then
     addr ← read_operand;
     bus_send (Bus.mkPacket (Some (Some addr)) None (Some (Some "READ"%string)));;
     val ← ram_read addr;
     a ← gets ACC;
     modify (set_ACC (Z.land (a + val) 255));;
     update_zero;;
     _tick ("ADD " +:+ pretty addr)
   else if instr =? OPCODES.SUB then
     addr ← read_operand;
     bus_send (Bus.mkPacket (Some (Some addr)) None (Some (Some "READ"%string)));;
     val ← ram_read addr;
     a ← gets ACC;
     modify (set_ACC (Z.land (a - val) 255));;
     update_zero;;
     _tick ("SUB " +:+ pretty addr)
   else if instr =? OPCODES.JMP then
     addr ← read_operand;
     modify (set_PC addr);;
     _tick ("JMP " +:+ pretty addr)
   else if instr =? OPCODES.JZ then
     addr ← read_operand;
     z ← gets zero;
     if z : bool then
       modify (set_PC addr);;
       _tick ("JZ (taken) " +:+ pretty addr)
     else
       _tick ("JZ (not taken) " +:+ pretty addr)
   else if instr =? OPCODES.OUT then
     a ← gets ACC;
     _tick ("OUT " +:+ pretty a)
   else if instr =? OPCODES.HALT then
     modify (set_halted true);;
     _tick "HALT"
   else
     _tick ("DATA " +:+ pretty instr));;
  (* clear bus after action *)
  emit DeferBusClear;;
  c ← gets id;
  mret (StepState (PC c) (ACC c) (IR c) (zero c)).

(** [reset()] *)
Definition reset (c : t) : t :=
  set_halted false (set_zero false (set_IR 0 (set_ACC 0 (set_PC 0 c)))).

(** The machine after a call of [step()], what the call returned and
    what it emitted. *)
Definition after (c : t) : t := (step c).1.2.
Definition returned (c : t) : step_result := (step c).1.1.
Definition emitted (c : t) : list event := (step c).2.

(** [n] consecutive calls of [step()]. *)
Fixpoint steps (n : nat) (c : t) : t :=
  match n with
  | O => c
  | S n => steps n (after c)
  end.
End CPU.

(** ** The driver's set-up ([sampleProgram], [sampleData], mount effect) *)

Definition sampleProgram : list Z :=
  [OPCODES.LOAD; 10; OPCODES.ADD; 11; OPCODES.OUT; OPCODES.STORE; 12; OPCODES.HALT].

Definition sampleData : list (Z * Z) := [(10, 7); (11, 3)].

(** [Object.keys(data).forEach((k) => ram.write(parseInt(k), data[k]))] *)
Definition preload (data : list (Z * Z)) (c : CPU.t) : CPU.t :=
  CPU.set_ram (foldl (λ m '(k, v), RAM.write m k v) (CPU.ram c) data) c.

(** The component's machine: [new RAM(64)], [new Bus()],
    [new CPU({ ram, bus })]. *)
Definition machine0 : CPU.t := CPU.new (RAM.new 64) Bus.new.

(** [cpu.reset(); cpu.loadProgram(program, 0); ...ram.write(k, data[k])] *)
Definition boot (program : list Z) (data : list (Z * Z)) (c : CPU.t) : CPU.t :=
  preload data (CPU.loadProgram program 0 (CPU.reset c)).


(** ** The assembler ([quickAssemble]) *)

(** The string functions of JavaScript that the assembler calls, on ASCII
    text: [trim], [split(/\s+/)], [toUpperCase] and [parseInt]. *)
Module JS.
(** A number that may be [NaN] ([None]). *)
Definition num : Type := option Z.

(** White space and line terminators: TAB, LF, VT, FF, CR, SPACE. *)
Definition is_space (c : ascii) : bool :=
  let n := N_of_ascii c in
  ((9 <=? n) && (n <=? 13) || (n =? 32))%N.

Fixpoint trimStart (s : string) : string :=
  match s with
  | String c s' => if is_space c then trimStart s' else s
  | EmptyString => EmptyString
  end.

Definition trim (s : string) : string :=
  String.rev (trimStart (String.rev (trimStart s))).

(** [s.split(/\s+/)]: the pieces between maximal runs of white space;
    [cur] is the piece being read, [sep] tells that the last character
    belonged to a separator. *)
Fixpoint split_go (s cur : string) (sep : bool) : list string :=
  match s with
  | EmptyString => [cur]
  | String c s' =>
      if is_space c then
        if sep then split_go s' EmptyString true
        else cur :: split_go s' EmptyString true
      else split_go s' (cur +:+ String c EmptyString) false
  end.

Definition split_ws (s : string) : list string := split_go s EmptyString false.

Definition upper_char (c : ascii) : ascii :=
  let n := N_of_ascii c in
  if ((97 <=? n) && (n <=? 122))%N then ascii_of_N (n - 32) else c.

Fixpoint toUpperCase (s : string) : string :=
  match s with
  | EmptyString => EmptyString
  | String c s' => String (upper_char c) (toUpperCase s')
  end.

(** The value of a character as a digit, in any radix up to 36. *)
Definition digit_val (c : ascii) : option Z :=
  let n := Z.of_N (N_of_ascii c) in
  if (48 <=? n) && (n <=? 57) then Some (n - 48)
  else if (97 <=? n) && (n <=? 122) then Some (n - 87)
  else if (65 <=? n) && (n <=? 90) then Some (n - 55)
  else None.

(** The longest prefix of radix-[R] digits, read as a number; [acc] is
    the value so far ([None]: no digit seen). *)
Fixpoint digits (R : Z) (s : string) (acc : num) : num :=
  match s with
  | EmptyString => acc
  | String c s' =>
      match digit_val c with
      | Some d => if d <? R then digits R s' (Some (R * default 0 acc + d)) else acc
      | None => acc
      end
  end.

(** [parseInt(string)] without a radix argument: leading white space,
    an optional sign, an optional [0x]/[0X] prefix, then digits. *)
Definition parseInt_string (s : string) : num :=
  let s := trimStart s in
  let '(sign, s) :=
    match s with
    | String "-" s' => (-1, s')
    | String "+" s' => (1, s')
    | _ => (1, s)
    end in
  let '(R, s) :=
    match s with
    | String "0" (String "x" s') => (16, s')
    | String "0" (String "X" s') => (16, s')
    | _ => (10, s)
    end in
  (λ n, sign * n) <$> digits R s None.

(** [parseInt(x)] where [x] may be [undefined] ([None]), which is first
    turned into the string ["undefined"].  The value is the exact integer
    of the digits, as in JavaScript for every result of magnitude below
    [2^53]; beyond that JavaScript rounds to the nearest double. *)
Definition parseInt (x : option string) : num :=
  parseInt_string (default "undefined"%string x).

(** The property key a number becomes in [obj[n] = v]: [String(n)],
    the plain decimal numeral for every integer of magnitude below [2^53]
    (JavaScript shortens larger ones and writes an exponent from [1e21]
    on). *)
Definition key (n : num) : string :=
  match n with
  | Some z => pretty z
  | None => "NaN"
  end.
End JS.

Module Assembler.
(** [{ prog: out, data }]; the keys of [data] are property names. *)
Record result : Type := mk { prog : list JS.num; data : gmap string JS.num }.

(** [Object.fromEntries(Object.entries(OPCODES).map(([k, v]) => [k, v]))].
    The looked-up name is upper case, so no inherited property of the
    object is ever hit: only these entries answer. *)
Definition mapping : gmap string Z := list_to_map OPCODES.entries.

(** The body of [assemblies.forEach((ln) => ...)]. *)
Definition line (r : result) (ln : string) : result :=
  let parts := JS.split_ws (JS.trim ln) in
  match parts !! 0%nat with
  | None | Some EmptyString => r
  | Some p0 =>
      let op := JS.toUpperCase p0 in
      if String.eqb op "DATA" then
        let addr := JS.parseInt (parts !! 1%nat) in
        let val := JS.parseInt (parts !! 2%nat) in
        {| prog := prog r; data := <[JS.key addr := val]> (data r) |}
      else
        match mapping !! op with
        | Some code =>
            let out := prog r ++ [Some code] in
            match parts !! 1%nat with
            | Some p1 => {| prog := out ++ [JS.parseInt (Some p1)]; data := data r |}
            | None => {| prog := out; data := data r |}
            end
        | None => r
        end
  end.

Definition quickAssemble (assemblies : list string) : result :=
  foldl line {| prog := []; data := ∅ |} assemblies.
End Assembler.

Definition sampleSource : list string :=
  ["LOAD 10"; "ADD 11"; "OUT"; "STORE 12"; "HALT"; "DATA 10 7"; "DATA 11 3"]%string.

(** The jump scenario: [[LOAD,5, JZ,6, HALT, NOP, NOP, JMP,2]]. *)
Definition jumpProgram : list Z :=
  [OPCODES.LOAD; 5; OPCODES.JZ; 6; OPCODES.HALT; OPCODES.NOP; OPCODES.NOP;
   OPCODES.JMP; 2].

(** The snapshots handed to the step observer, in call order. *)
Definition onStep_calls (es : list event) : list snapshot :=
  omap (λ e, match e with OnStep s => Some s | _ => None end) es.

(** The lines delivered to bus listeners, in call order. *)
Definition bus_deliveries (es : list event) : list (nat * bus_lines) :=
  omap (λ e, match e with BusListener cb l => Some (cb, l) | _ => None end) es.

(** The registers and the memory: everything of the machine but the
    channel and the observer. *)
Definition arch (c : CPU.t) : RAM.t * Z * Z * Z * bool * bool :=
  (CPU.ram c, CPU.PC c, CPU.ACC c, CPU.IR c, CPU.zero c, CPU.halted c).

(** The timer callback of [setTimeout(() => this.bus.clear(), 300)]. *)
Definition deferred_clear (c : CPU.t) : CPU.t * list event :=
  let '(b, es) := Bus.clear (CPU.bus c) in (CPU.set_bus b c, es).

(** The packets of the fetch and of an operand read:
    [{ addr, control }], no [data] key. *)
Definition addr_control (a : Z) (ctl : string) : Bus.packet :=
  Bus.mkPacket (Some (Some a)) None (Some (Some ctl)).

(** The operand bytes that follow an opcode. *)
Definition operand_bytes (instr : Z) : Z :=
  if (instr =? OPCODES.LOAD) || (instr =? OPCODES.STORE) || (instr =? OPCODES.ADD)
     || (instr =? OPCODES.SUB) || (instr =? OPCODES.JMP) || (instr =? OPCODES.JZ)
  then 1 else 0.

(** Every cell holds a byte. *)
Definition RAM_bytes (m : RAM.t) : Prop :=
  Forall (λ x, 0 <= x < 256) (RAM.data m).

(** The opcode a call of [step()] will fetch and the operand byte that
    follows it. *)
Definition opcode (c : CPU.t) : Z := RAM.read (CPU.ram c) (CPU.PC c).
Definition operand (c : CPU.t) : Z := RAM.read (CPU.ram c) (CPU.PC c + 1).

(** The second channel transaction of a call, after the fetch: the
    packet of [LOAD]/[ADD]/[SUB] ([READ]) or of [STORE] ([WRITE] with the
    accumulator as data); no other instruction sends one. *)
Definition mem_transaction (c : CPU.t) : option Bus.packet :=
  if decide (opcode c = OPCODES.STORE) then
    Some (Bus.mkPacket (Some (Some (operand c))) (Some (Some (CPU.ACC c)))
                       (Some (Some "WRITE"%string)))
  else if decide (opcode c = OPCODES.LOAD ∨ opcode c = OPCODES.ADD
                  ∨ opcode c = OPCODES.SUB) then
    Some (addr_control (operand c) "READ")
  else None.

(** What holds of every machine the driver can build and run: the memory
    is well formed and holds bytes, the accumulator and the instruction
    register are bytes, the program counter is not negative. *)
Definition CPU_bytes (c : CPU.t) : Prop :=
  RAM.wf (CPU.ram c) ∧ RAM_bytes (CPU.ram c)
  ∧ 0 <= CPU.ACC c < 256 ∧ 0 <= CPU.IR c < 256 ∧ 0 <= CPU.PC c.

(** [resetAll()]: what it does to the unit, the memory and the channel
    (the log and the tick counter belong to the display). *)
Definition resetAll (c : CPU.t) : CPU.t * list event :=
  let c := CPU.reset c in
  let c := CPU.set_ram (RAM.data_fill (CPU.ram c) 0) c in
  let c := CPU.loadProgram sampleProgram 0 c in
  let c := preload sampleData c in
  let '(b, es) := Bus.clear (CPU.bus c) in
  (CPU.set_bus b c, es).

(** A decimal digit, and a string that begins like a plain decimal
    numeral: a digit followed by a digit or by nothing. *)
Definition is_digit (c : ascii) : bool :=
  match JS.digit_val c with
  | Some d => d <? 10
  | None => false
  end.

Definition plain_numeral (s : string) : bool :=
  match s with
  | String c1 EmptyString => is_digit c1
  | String c1 (String c2 _) => is_digit c1 && is_digit c2
  | EmptyString => false
  end.

(** The two prefix steps of [parseInt], named: the sign, then the
    hexadecimal marker. *)
Definition strip_sign (s : string) : Z * string :=
  match s with
  | String "-" s' => (-1, s')
  | String "+" s' => (1, s')
  | _ => (1, s)
  end.

Definition strip_prefix (s : string) : Z * string :=
  match s with
  | String "0" (String "x" s') => (16, s')
  | String "0" (String "X" s') => (16, s')
  | _ => (10, s)
  end.

(** A string of white space only (the empty string included). *)
Fixpoint all_space (s : string) : bool :=
  match s with
  | EmptyString => true
  | String c s' => JS.is_space c && all_space s'
  end.

(** The numbers the model prints and parses exactly as JavaScript does:
    [NaN] and the safe integers, of magnitude at most
    [Number.MAX_SAFE_INTEGER = 2^53 - 1]. *)
Definition safe_number (n : JS.num) : Prop :=
  match n with
  | Some z => Z.abs z <= 2 ^ 53 - 1
  | None => True
  end.

(** * Properties *)

(** ** Memory *)

Lemma RAM_wrap_mod (m : RAM.t) (a : Z) :
  0 < RAM.size m → RAM._wrap m a = a mod RAM.size m.
Proof.
  intros Hs. unfold RAM._wrap.
  pose proof (Z.rem_bound_abs a (RAM.size m) ltac:(lia)) as Hb.
  rewrite Z.rem_mod_nonneg by lia.
  pose proof (Z.quot_rem' a (RAM.size m)) as Hq.
  replace (Z.rem a (RAM.size m) + RAM.size m)
    with (a + (1 - Z.quot a (RAM.size m)) * RAM.size m) by lia.
  apply Z.mod_add. lia.
Qed.

Lemma RAM_wrap_range (m : RAM.t) (a : Z) :
  0 < RAM.size m → 0 <= RAM._wrap m a < RAM.size m.
Proof.
  intros Hs. rewrite RAM_wrap_mod by done. apply Z.mod_pos_bound. done.
Qed.

Lemma land_255 (v : Z) : Z.land v 255 = v mod 256.
Proof. change 255 with (Z.ones 8). by rewrite Z.land_ones. Qed.

Lemma RAM_write_wf (m : RAM.t) (a v : Z) : RAM.wf m → RAM.wf (RAM.write m a v).
Proof.
  intros [Hs Hl]. split; simpl; [done|]. by rewrite length_insert.
Qed.

Lemma RAM_wrap_idx (m : RAM.t) (a : Z) :
  RAM.wf m → (Z.to_nat (RAM._wrap m a) < length (RAM.data m))%nat.
Proof.
  intros [Hs Hl]. pose proof (RAM_wrap_range m a Hs). lia.
Qed.

Lemma RAM_new_wf (n : Z) : 0 < n → RAM.wf (RAM.new n).
Proof.
  intros Hn. split; simpl; [done|]. rewrite length_replicate. lia.
Qed.

Lemma RAM_data_fill_wf (m : RAM.t) (v : Z) : RAM.wf m → RAM.wf (RAM.data_fill m v).
Proof.
  intros [Hs Hl]. split; simpl; [done|]. by rewrite length_replicate.
Qed.

(** C2: on a memory as the constructor builds it, [write(a, v)] followed
    by [read(a)] gives [v mod 256], for every integer address [a] (negative
    or beyond the capacity too) and every integer [v]; both operations
    normalize the address to the same cell, [a mod size], inside
    [[0, size)]. *)
Theorem write_read_roundtrip (m : RAM.t) (a v : Z) :
  RAM.wf m →
  RAM.read (RAM.write m a v) a = v mod 256
  ∧ RAM._wrap (RAM.write m a v) a = RAM._wrap m a
  ∧ RAM._wrap m a = a mod RAM.size m
  ∧ 0 <= RAM._wrap m a < RAM.size m.
Proof.
  intros Hwf. pose proof (RAM_wrap_idx m a Hwf) as Hi. destruct Hwf as [Hs Hl].
  split; [|split; [|split]].
  - unfold RAM.read, RAM.write, RAM._wrap in *. simpl.
    rewrite list_lookup_insert_eq by done. simpl. apply land_255.
  - reflexivity.
  - by apply RAM_wrap_mod.
  - by apply RAM_wrap_range.
Qed.

Lemma write_read_roundtrip_witness :
  RAM.wf (RAM.new 64)
  ∧ RAM.read (RAM.write (RAM.new 64) (-3) 1000) (-3) = 232
  ∧ RAM.read (RAM.write (RAM.new 64) 200 (-1)) 200 = 255.
Proof.
  split; [apply RAM_new_wf; lia|]. split.
  - apply (write_read_roundtrip (RAM.new 64) (-3) 1000). apply RAM_new_wf. lia.
  - apply (write_read_roundtrip (RAM.new 64) 200 (-1)). apply RAM_new_wf. lia.
Defined.

(** C6, as the code has it: the memory itself has no [fill] (the class
    declares [read], [write] and [_wrap] only, so [m.fill] is
    [undefined]); a full clear is the driver's [ram.data.fill(0)] on the
    backing array.  That fill, for every value, keeps the [size] cells and
    makes each of them hold the value, so [read(a)] gives the value at
    every address. *)
Theorem data_fill_sets_every_cell (m : RAM.t) (v a : Z) :
  RAM.wf m →
  RAM.typeof_member "fill" = RAM.TUndefined
  ∧ RAM.wf (RAM.data_fill m v)
  ∧ RAM.size (RAM.data_fill m v) = RAM.size m
  ∧ (∀ i, 0 <= i < RAM.size m →
          RAM.data (RAM.data_fill m v) !! Z.to_nat i = Some v)
  ∧ RAM.read (RAM.data_fill m v) a = v.
Proof.
  intros Hwf. pose proof (RAM_wrap_idx m a Hwf) as Hi.
  pose proof (RAM_data_fill_wf m v Hwf) as Hwf'. destruct Hwf as [Hs Hl].
  split; [reflexivity|]. split; [exact Hwf'|]. split; [reflexivity|]. split.
  - intros i Hi'. unfold RAM.data_fill. cbn [RAM.data].
    apply lookup_replicate_2. lia.
  - unfold RAM.read, RAM.data_fill, RAM._wrap in *. simpl.
    by rewrite lookup_replicate_2.
Qed.

Lemma data_fill_sets_every_cell_witness :
  RAM.wf (RAM.write (RAM.new 64) 5 9)
  ∧ RAM.read (RAM.data_fill (RAM.write (RAM.new 64) 5 9) 0) 5 = 0
  ∧ RAM.read (RAM.data_fill (RAM.write (RAM.new 64) 5 9) 42) (-1) = 42.
Proof.
  assert (Hwf : RAM.wf (RAM.write (RAM.new 64) 5 9)).
  { apply RAM_write_wf, RAM_new_wf. lia. }
  split; [exact Hwf|]. split.
  - apply (data_fill_sets_every_cell _ 0 5 Hwf).
  - apply (data_fill_sets_every_cell _ 42 (-1) Hwf).
Defined.

(** C6 as stated fails: the memory provides no [fill(value)].  On an
    instance, [read], [write] and [_wrap] are functions and [fill] is
    [undefined], so [m.fill(0)] is a [TypeError]. *)
Lemma memory_has_no_fill :
  RAM.typeof_member "fill" = RAM.TUndefined
  ∧ ¬ ("fill"%string ∈ RAM.methods)
  ∧ RAM.typeof_member "read" = RAM.TFunction
  ∧ RAM.typeof_member "write" = RAM.TFunction
  ∧ RAM.typeof_member "_wrap" = RAM.TFunction.
Proof.
  split; [reflexivity|]. split; [|repeat split].
  unfold RAM.methods. rewrite !elem_of_cons, elem_of_nil.
  intros H. destruct_or!; discriminate || done.
Qed.

(** ** The sample program *)

(** C1: the sample program with [Memory[10]=7] and [Memory[11]=3], loaded
    at address 0 with [PC=0]: after exactly 5 calls of [step()] the
    accumulator is 10, [Memory[12]] is 10, the unit is halted and the zero
    flag is false (and it was not halted after 4). *)
Theorem sample_program_runs :
  let c0 := boot sampleProgram sampleData machine0 in
  let c := CPU.steps 5 c0 in
  RAM.read (CPU.ram c0) 10 = 7 ∧ RAM.read (CPU.ram c0) 11 = 3 ∧ CPU.PC c0 = 0
  ∧ CPU.ACC c = 10
  ∧ RAM.read (CPU.ram c) 12 = 10
  ∧ CPU.halted c = true
  ∧ CPU.zero c = false
  ∧ CPU.halted (CPU.steps 4 c0) = false.
Proof. vm_compute. repeat split. Qed.

(** C4: the jump scenario with [Memory[5]=0]: step 1 leaves the
    accumulator 0 and sets the zero flag; step 2, the [JZ], sets [PC] to 6
    and does not fall through to the [HALT] at address 4. *)
Theorem jz_takes_branch :
  let c0 := boot jumpProgram [(5, 0)] machine0 in
  CPU.PC c0 = 0
  ∧ CPU.ACC (CPU.steps 1 c0) = 0
  ∧ CPU.zero (CPU.steps 1 c0) = true
  ∧ CPU.IR (CPU.steps 2 c0) = OPCODES.JZ
  ∧ CPU.PC (CPU.steps 2 c0) = 6
  ∧ CPU.PC (CPU.steps 2 c0) ≠ 4
  ∧ CPU.halted (CPU.steps 3 c0) = false.
Proof. vm_compute. repeat split; discriminate. Qed.

(** ** The assembler *)

(** C7: assembling the sample source gives the program bytes
    [[1,10,3,11,7,2,12,255]] and the data object [{10: 7, 11: 3}] (whose
    property names are the strings ["10"] and ["11"]). *)
Theorem assemble_sample :
  Assembler.prog (Assembler.quickAssemble sampleSource)
    = Some <$> [1; 10; 3; 11; 7; 2; 12; 255]
  ∧ Assembler.data (Assembler.quickAssemble sampleSource)
    = {[ "10"%string := Some 7; "11"%string := Some 3 ]}.
Proof. split; vm_compute; reflexivity. Qed.

(** ** One call of [step()] *)

Lemma step_halted (c : CPU.t) :
  CPU.halted c = true → CPU.step c = (HaltSentinel, c, []).
Proof. intros H. unfold CPU.step, mbind, CPU.M_bind, CPU.bind, CPU.gets. by rewrite H. Qed.

Ltac step_unfold :=
  unfold CPU.after, CPU.returned, CPU.emitted, CPU.step, CPU.read_operand,
    CPU.update_zero, CPU._tick, CPU.ram_read, CPU.ram_write, CPU.bus_send,
    mbind, mret, CPU.M_bind, CPU.M_ret, CPU.bind, CPU.ret, CPU.gets,
    CPU.modify, CPU.emit, Bus.send, Bus._notify.

Ltac step_simpl :=
  cbn [CPU.halted CPU.PC CPU.ACC CPU.IR CPU.zero CPU.onStep CPU.ram CPU.bus
       CPU.set_PC CPU.set_ACC CPU.set_IR CPU.set_zero CPU.set_halted
       CPU.set_ram CPU.set_bus Bus.lines Bus.listeners id fst snd].

(** Runs one call of [step()] symbolically: one goal per arm of the
    [switch] (and per outcome of the guards inside). *)
Ltac step_run :=
  step_unfold; step_simpl;
  repeat (match goal with
          | |- context [if ?t then _ else _] => destruct t eqn:?
          end; step_simpl).

Ltac step_cases c :=
  destruct c as [m b p a i z h f];
  cbn [CPU.halted CPU.onStep CPU.ram CPU.bus CPU.PC CPU.ACC CPU.IR CPU.zero] in *;
  subst; step_run.

Lemma after_halted (c : CPU.t) : CPU.halted c = true → CPU.after c = c.
Proof. intros H. unfold CPU.after. by rewrite step_halted. Qed.

Lemma steps_halted (c : CPU.t) (n : nat) :
  CPU.halted c = true → CPU.steps n c = c.
Proof.
  intros H. induction n as [|n IH]; [done|].
  simpl. by rewrite after_halted.
Qed.

Lemma onStep_calls_app (es1 es2 : list event) :
  onStep_calls (es1 ++ es2) = onStep_calls es1 ++ onStep_calls es2.
Proof. apply omap_app. Qed.

Lemma onStep_calls_bus (l : bus_lines) (cbs : list nat) :
  onStep_calls (map (λ cb, BusListener cb l) cbs) = [].
Proof. induction cbs as [|cb cbs IH]; [done|]. exact IH. Qed.

Lemma bus_deliveries_app (es1 es2 : list event) :
  bus_deliveries (es1 ++ es2) = bus_deliveries es1 ++ bus_deliveries es2.
Proof. apply omap_app. Qed.

Lemma bus_deliveries_bus (l : bus_lines) (cbs : list nat) :
  bus_deliveries (map (λ cb, BusListener cb l) cbs) = map (λ cb, (cb, l)) cbs.
Proof.
  induction cbs as [|cb cbs IH]; [done|].
  change (bus_deliveries (map (λ cb, BusListener cb l) (cb :: cbs)))
    with ((cb, l) :: bus_deliveries (map (λ cb, BusListener cb l) cbs)).
  by rewrite IH.
Qed.

(** A call of [step()] keeps the memory well formed. *)
Lemma after_wf (c : CPU.t) : RAM.wf (CPU.ram c) → RAM.wf (CPU.ram (CPU.after c)).
Proof.
  intros Hwf. destruct (CPU.halted c) eqn:Hh.
  - by rewrite after_halted.
  - step_cases c; try done; by apply RAM_write_wf.
Qed.

Lemma steps_wf (c : CPU.t) (n : nat) :
  RAM.wf (CPU.ram c) → RAM.wf (CPU.ram (CPU.steps n c)).
Proof.
  revert c. induction n as [|n IH]; intros c Hwf; [done|].
  simpl. by apply IH, after_wf.
Qed.

(** ** Halting *)

(** C3: once the halted flag is set, any number of calls of [step()]
    leaves the whole machine as it was ([PC], [ACC], [IR], the flags, the
    halted flag and the memory among it), every such call returns the
    sentinel [{ type: "HALT" }] and calls no observer; [reset()] is what
    clears the flag. *)
Theorem halted_is_terminal (c : CPU.t) (n : nat) :
  CPU.halted c = true →
  CPU.steps n c = c
  ∧ arch (CPU.steps n c) = arch c
  ∧ CPU.returned (CPU.steps n c) = HaltSentinel
  ∧ CPU.emitted (CPU.steps n c) = []
  ∧ CPU.halted (CPU.reset c) = false.
Proof.
  intros H. rewrite steps_halted by done.
  unfold CPU.returned, CPU.emitted. rewrite step_halted by done. done.
Qed.

Lemma halted_is_terminal_witness :
  let c := CPU.steps 5 (boot sampleProgram sampleData machine0) in
  CPU.halted c = true ∧ CPU.steps 7 c = c ∧ CPU.returned (CPU.steps 7 c) = HaltSentinel.
Proof.
  intros c. split; [reflexivity|].
  pose proof (halted_is_terminal c 7 eq_refl) as (H1 & _ & H2 & _).
  exact (conj H1 H2).
Defined.

(** ** The step observer *)

(** C5, as the code has it: with an observer bound, a call of [step()] on
    a running unit calls the observer exactly once, with
    [{action, pc, acc, ir, flags: {zero}}] taken from the registers as the
    call leaves them; on a halted unit the observer is not called and
    the call returns the sentinel. *)
Theorem observer_called_once_when_running (c : CPU.t) :
  CPU.onStep c = true →
  (CPU.halted c = false →
   ∃ act, onStep_calls (CPU.emitted c) =
          [ {| action := act; pc := CPU.PC (CPU.after c);
               acc := CPU.ACC (CPU.after c); ir := CPU.IR (CPU.after c);
               flags_zero := CPU.zero (CPU.after c) |} ])
  ∧ (CPU.halted c = true →
     onStep_calls (CPU.emitted c) = [] ∧ CPU.returned c = HaltSentinel).
Proof.
  intros Hf. split; intros Hh.
  - step_cases c; try discriminate;
      rewrite ?onStep_calls_app, ?onStep_calls_bus; simpl; eexists; reflexivity.
  - unfold CPU.emitted, CPU.returned. by rewrite step_halted.
Qed.

Lemma observer_called_once_when_running_witness :
  let c := boot sampleProgram sampleData machine0 in
  CPU.onStep c = true ∧ CPU.halted c = false
  ∧ ∃ act, onStep_calls (CPU.emitted c) =
           [ {| action := act; pc := 2; acc := 7; ir := 1; flags_zero := false |} ].
Proof.
  intros c. split; [reflexivity|]. split; [reflexivity|].
  exact (proj1 (observer_called_once_when_running c eq_refl) eq_refl).
Defined.

(** C5 as stated fails on a halted unit: the call returns before
    [_tick], so the observer is called zero times, not once. *)
Lemma observer_not_called_when_halted :
  let c := CPU.steps 5 (boot sampleProgram sampleData machine0) in
  CPU.halted c = true ∧ CPU.onStep c = true
  ∧ length (onStep_calls (CPU.emitted c)) = 0%nat
  ∧ length (onStep_calls (CPU.emitted c)) ≠ 1%nat.
Proof. vm_compute. repeat split. discriminate. Qed.

(** ** Determinism *)

(** One call: the registers and the memory after the call, and the value
    the call returns, depend on the registers and the memory only, not on
    the channel's state nor on the observer. *)
Lemma step_arch (c1 c2 : CPU.t) :
  arch c1 = arch c2 →
  arch (CPU.after c1) = arch (CPU.after c2) ∧ CPU.returned c1 = CPU.returned c2.
Proof.
  intros E. destruct (CPU.halted c1) eqn:Hh.
  - assert (Hh2 : CPU.halted c2 = true).
    { unfold arch in E. congruence. }
    unfold CPU.returned. rewrite !after_halted, !step_halted by done. done.
  - assert (Hh2 : CPU.halted c2 = false).
    { unfold arch in E. congruence. }
    destruct c1 as [m1 b1 p1 a1 i1 z1 h1 f1], c2 as [m2 b2 p2 a2 i2 z2 h2 f2].
    unfold arch in E.
    cbn [CPU.halted CPU.ram CPU.PC CPU.ACC CPU.IR CPU.zero] in *.
    simplify_eq. unfold arch. step_run; done.
Qed.

(** C8: two units with the same registers over memories with the same
    contents stay equal, call after call: after any number [n] of calls of
    [step()] the registers, the flags and the memory agree, and so does
    what the next call returns. *)
Theorem step_deterministic (c1 c2 : CPU.t) (n : nat) :
  arch c1 = arch c2 →
  arch (CPU.steps n c1) = arch (CPU.steps n c2)
  ∧ CPU.returned (CPU.steps n c1) = CPU.returned (CPU.steps n c2).
Proof.
  revert c1 c2. induction n as [|n IH]; intros c1 c2 E.
  - split; [done|]. by apply step_arch.
  - simpl. apply IH. by apply step_arch.
Qed.

Lemma step_deterministic_witness :
  let c1 := boot sampleProgram sampleData machine0 in
  let c2 := CPU.set_onStep false (CPU.set_bus (Bus.onChange Bus.new 0%nat) c1) in
  arch c1 = arch c2
  ∧ arch (CPU.steps 3 c1) = arch (CPU.steps 3 c2)
  ∧ CPU.returned (CPU.steps 3 c1) = CPU.returned (CPU.steps 3 c2).
Proof.
  intros c1 c2. split; [reflexivity|].
  exact (step_deterministic c1 c2 3 eq_refl).
Defined.

(** ** The channel's data line *)

(** C9: [send] keeps a field the packet leaves out, and the packets of
    the fetch and of operand reads leave out [data].  So in a call of
    [step()] on a running unit every triple delivered to a listener under
    [FETCH] or [READ] carries the [data] that was on the lines when the
    call began (what the last earlier [send] left there), and the fetch
    is delivered to every listener with exactly that data; [clear] is
    what puts [null] back. *)
Theorem fetch_and_read_keep_bus_data
    (c : CPU.t) (bus0 : Bus.t) (adr : Z) (ctl : string) :
  l_data (Bus.lines (Bus.send bus0 (addr_control adr ctl)).1)
    = l_data (Bus.lines bus0)
  ∧ l_data (Bus.lines (Bus.clear bus0).1) = None
  ∧ (CPU.halted c = false →
     (∀ cb l, (cb, l) ∈ bus_deliveries (CPU.emitted c) →
        l_control l = Some "FETCH"%string ∨ l_control l = Some "READ"%string →
        l_data l = l_data (Bus.lines (CPU.bus c)))
     ∧ (∀ cb, cb ∈ Bus.listeners (CPU.bus c) →
        (cb, mkLines (Some (CPU.PC c)) (l_data (Bus.lines (CPU.bus c)))
                     (Some "FETCH"%string)) ∈ bus_deliveries (CPU.emitted c))
     ∧ (RAM.read (CPU.ram c) (CPU.PC c) = OPCODES.STORE →
        l_data (Bus.lines (CPU.bus (CPU.after c))) = Some (CPU.ACC c))
     ∧ (RAM.read (CPU.ram c) (CPU.PC c) ≠ OPCODES.STORE →
        l_data (Bus.lines (CPU.bus (CPU.after c)))
          = l_data (Bus.lines (CPU.bus c)))).
Proof.
  split; [done|]. split; [done|]. intros Hh. split; [|split; [|split]].
  - intros cb l. step_cases c;
      rewrite ?bus_deliveries_app, ?bus_deliveries_bus; simpl;
      rewrite ?app_nil_r, ?elem_of_app, !list_elem_of_fmap;
      intros Hin Hctl; destruct_or?; destruct Hin as (cb' & Heq & _);
      simplify_eq; simpl in *; try done; destruct Hctl; discriminate.
  - intros cb Hcb. step_cases c;
      rewrite ?bus_deliveries_app, ?bus_deliveries_bus; simpl;
      rewrite ?elem_of_app, !list_elem_of_fmap; repeat left;
      exists cb; done.
  - intros Hi. step_cases c; rewrite Hi in *; try discriminate; done.
  - intros Hi. step_cases c; try done.
    all: exfalso; apply Hi; by apply Z.eqb_eq.
Qed.

(** The sample machine with one channel listener, after the [STORE]
    (4 calls): the next fetch delivers the stored accumulator, 10, on the
    data line; after the deferred [clear] it delivers [null]. *)
Lemma fetch_and_read_keep_bus_data_witness :
  let c := CPU.steps 4 (boot sampleProgram sampleData
                          (CPU.new (RAM.new 64) (Bus.onChange Bus.new 0%nat))) in
  CPU.halted c = false
  ∧ l_data (Bus.lines (CPU.bus c)) = Some 10
  ∧ (0%nat, mkLines (Some 7) (Some 10) (Some "FETCH"%string))
      ∈ bus_deliveries (CPU.emitted c)
  ∧ l_data (Bus.lines (CPU.bus (deferred_clear c).1)) = None.
Proof.
  intros c. split; [reflexivity|]. split; [reflexivity|]. split.
  - pose proof (fetch_and_read_keep_bus_data c Bus.new 0 "") as (_ & _ & H).
    apply (proj1 (proj2 (H eq_refl)) 0%nat). vm_compute. left.
  - exact (proj1 (proj2 (fetch_and_read_keep_bus_data c (CPU.bus c) 0 ""))).
Defined.

(** ** The program counter *)

(** C10: the unit never wraps [PC].  A call of [step()] on a running unit
    fetches the cell [PC mod size] (the memory wraps the address, the unit
    does not) and, unless a jump is taken, leaves [PC] exactly one past
    the opcode and its operand byte, with no reduction: fetched at the
    last address [size - 1], a non-jump instruction leaves [PC >= size]. *)
Theorem pc_is_not_wrapped (c : CPU.t) :
  CPU.halted c = false →
  RAM.wf (CPU.ram c) →
  let instr := RAM.read (CPU.ram c) (CPU.PC c) in
  CPU.IR (CPU.after c) = instr
  ∧ instr = default 0 (RAM.data (CPU.ram c)
                         !! Z.to_nat (CPU.PC c mod RAM.size (CPU.ram c)))
  ∧ (instr ≠ OPCODES.JMP → (instr = OPCODES.JZ → CPU.zero c = false) →
     CPU.PC (CPU.after c) = CPU.PC c + 1 + operand_bytes instr)
  ∧ (instr ≠ OPCODES.JMP → instr ≠ OPCODES.JZ →
     CPU.PC c = RAM.size (CPU.ram c) - 1 →
     RAM.size (CPU.ram c) <= CPU.PC (CPU.after c)).
Proof.
  intros Hh [Hs Hl] instr.
  assert (Hpc : instr ≠ OPCODES.JMP → (instr = OPCODES.JZ → CPU.zero c = false) →
                CPU.PC (CPU.after c) = CPU.PC c + 1 + operand_bytes instr).
  { subst instr. clear Hs Hl. intros Hj Hz.
    step_cases c;
      try (match goal with
           | H : (_ =? _) = true |- _ => apply Z.eqb_eq in H; rewrite H in *
           end;
           first [ done
                 | by specialize (Hz eq_refl)
                 | change (operand_bytes _) with 1; lia
                 | change (operand_bytes _) with 0; lia ]).
    all: unfold operand_bytes;
      repeat match goal with
             | H : (_ =? _) = false |- _ => rewrite H; clear H
             end; simpl; lia. }
  split; [|split; [|split]].
  - subst instr. clear Hpc. step_cases c; done.
  - subst instr. unfold RAM.read. by rewrite RAM_wrap_mod.
  - exact Hpc.
  - intros Hj Hz Hlast. rewrite Hpc by done.
    assert (0 <= operand_bytes instr); [|lia].
    unfold operand_bytes. case_match; lia.
Qed.

(** The sample machine with [PC] at the last address, 63, where a [NOP]
    lies: the call leaves [PC = 64], the capacity, and the next call
    fetches cell 0, the [LOAD]. *)
Lemma pc_is_not_wrapped_witness :
  let c := CPU.set_PC 63 (boot sampleProgram sampleData machine0) in
  CPU.halted c = false
  ∧ RAM.wf (CPU.ram c)
  ∧ CPU.PC (CPU.after c) = 64
  ∧ RAM.size (CPU.ram c) <= CPU.PC (CPU.after c)
  ∧ CPU.IR (CPU.after (CPU.after c)) = OPCODES.LOAD.
Proof.
  intros c.
  assert (Hwf : RAM.wf (CPU.ram c)) by (split; [reflexivity|reflexivity]).
  assert (Hwf' : RAM.wf (CPU.ram (CPU.after c))) by (split; [reflexivity|reflexivity]).
  assert (Hj : RAM.read (CPU.ram c) (CPU.PC c) ≠ OPCODES.JMP) by (vm_compute; discriminate).
  assert (Hz : RAM.read (CPU.ram c) (CPU.PC c) ≠ OPCODES.JZ) by (vm_compute; discriminate).
  destruct (pc_is_not_wrapped c eq_refl Hwf) as (_ & _ & Hpc & Hlast).
  destruct (pc_is_not_wrapped (CPU.after c) eq_refl Hwf') as (Hir & _).
  split; [reflexivity|]. split; [exact Hwf|]. split; [|split].
  - exact (Hpc Hj (λ E, False_ind _ (Hz E))).
  - exact (Hlast Hj Hz eq_refl).
  - exact Hir.
Defined.

(** * Further properties of the code *)

(** ** Memory: addressing and frame *)

Lemma RAM_read_lookup (m : RAM.t) (a : Z) :
  RAM.wf m →
  RAM.data m !! Z.to_nat (a mod RAM.size m) = Some (RAM.read m a).
Proof.
  intros Hwf. pose proof (RAM_wrap_idx m a Hwf) as Hi. destruct Hwf as [Hs Hl].
  unfold RAM.read. rewrite RAM_wrap_mod in * by done.
  destruct (lookup_lt_is_Some_2 (RAM.data m) _ Hi) as [x Hx].
  by rewrite Hx.
Qed.

Lemma read_over_write_same (m : RAM.t) (a v : Z) :
  RAM.wf m → RAM.read (RAM.write m a v) a = v mod 256.
Proof.
  intros Hwf. pose proof (RAM_wrap_idx m a Hwf) as Hi.
  unfold RAM.read, RAM.write, RAM._wrap in *. cbn [RAM.data RAM.size].
  rewrite list_lookup_insert_eq by done. apply land_255.
Qed.

(** X1: addresses are taken modulo the capacity: [read] gives the same
    cell at [a], [a + size], [a - size] and every [a + k * size]. *)
Theorem read_periodic (m : RAM.t) (a k : Z) :
  RAM.wf m →
  RAM.read m (a + k * RAM.size m) = RAM.read m a
  ∧ RAM.read m (a + RAM.size m) = RAM.read m a
  ∧ RAM.read m (a - RAM.size m) = RAM.read m a.
Proof.
  intros [Hs Hl].
  assert (H : ∀ j, RAM.read m (a + j * RAM.size m) = RAM.read m a).
  { intros j. unfold RAM.read. rewrite !RAM_wrap_mod by done.
    by rewrite Z.mod_add by lia. }
  split; [apply H|]. split.
  - specialize (H 1). by rewrite Z.mul_1_l in H.
  - specialize (H (-1)). by replace (a + -1 * RAM.size m) with (a - RAM.size m) in H by lia.
Qed.

Lemma read_periodic_witness :
  let m := RAM.write (RAM.new 64) 3 9 in
  RAM.wf m ∧ RAM.read m (3 + 64) = 9 ∧ RAM.read m (3 - 64) = 9.
Proof.
  intros m.
  assert (Hwf : RAM.wf m) by (apply RAM_write_wf, RAM_new_wf; lia).
  destruct (read_periodic m 3 0 Hwf) as (_ & H1 & H2).
  split; [exact Hwf|]. split; [exact H1 | exact H2].
Defined.

(** X2: a [write] changes one cell only.  Reading any address after
    [write(a, v)] gives [v mod 256] when the address falls on the cell of
    [a] (equal modulo the capacity) and the old content otherwise. *)
Theorem read_over_write (m : RAM.t) (a b v : Z) :
  RAM.wf m →
  RAM.read (RAM.write m a v) b =
    if decide (a mod RAM.size m = b mod RAM.size m) then v mod 256
    else RAM.read m b.
Proof.
  intros Hwf.
  pose proof (RAM_wrap_idx m a Hwf) as Ha. pose proof (RAM_wrap_idx m b Hwf) as Hb.
  destruct Hwf as [Hs Hl].
  pose proof (RAM_wrap_range m a Hs) as Ra. pose proof (RAM_wrap_range m b Hs) as Rb.
  unfold RAM.read, RAM.write. cbn [RAM.data RAM.size].
  change (Z.rem (Z.rem ?x (RAM.size m) + RAM.size m) (RAM.size m))
    with (RAM._wrap m x) in *.
  unfold RAM._wrap at 1. cbn [RAM.size]. fold (RAM._wrap m b).
  rewrite <- !RAM_wrap_mod by done.
  case_decide as E.
  - rewrite E. rewrite list_lookup_insert_eq by done. apply land_255.
  - rewrite list_lookup_insert_ne by lia. done.
Qed.

Lemma read_over_write_witness :
  let m := RAM.write (RAM.new 64) 5 7 in
  RAM.wf m
  ∧ RAM.read (RAM.write m 70 300) 6 = 44
  ∧ RAM.read (RAM.write m 70 300) 5 = 7.
Proof.
  intros m.
  assert (Hwf : RAM.wf m) by (apply RAM_write_wf, RAM_new_wf; lia).
  split; [exact Hwf|]. split.
  - exact (read_over_write m 70 6 300 Hwf).
  - exact (read_over_write m 70 5 300 Hwf).
Defined.

Lemma RAM_write_bytes (m : RAM.t) (a v : Z) :
  RAM_bytes m → RAM_bytes (RAM.write m a v).
Proof.
  intros Hb. unfold RAM_bytes, RAM.write. cbn [RAM.data].
  apply Forall_insert; [done|].
  rewrite land_255. apply Z.mod_pos_bound. lia.
Qed.

Lemma RAM_read_byte (m : RAM.t) (a : Z) :
  RAM.wf m → RAM_bytes m → 0 <= RAM.read m a < 256.
Proof.
  intros Hwf Hb. pose proof (RAM_read_lookup m a Hwf) as Hl.
  unfold RAM_bytes in Hb. rewrite Forall_lookup in Hb. by eapply Hb.
Qed.

Lemma writes_keep (ws : list (Z * Z)) (m : RAM.t) :
  RAM.wf m → RAM_bytes m →
  let m' := foldl (λ m '(k, v), RAM.write m k v) m ws in
  RAM.wf m' ∧ RAM_bytes m' ∧ RAM.size m' = RAM.size m.
Proof.
  revert m. induction ws as [|[k v] ws IH]; intros m Hwf Hb; [done|].
  simpl. destruct (IH (RAM.write m k v)) as (? & ? & ?);
    [by apply RAM_write_wf | by apply RAM_write_bytes | done].
Qed.

(** X3: the cells are bytes.  The constructor gives a memory of [size]
    cells that reads 0 everywhere; [write] keeps the capacity and the
    number of cells and keeps every cell in [[0, 255]] whatever integer
    is written, so [read] only ever returns a byte. *)
Theorem memory_holds_bytes (n : Z) (ws : list (Z * Z)) (a : Z) :
  0 < n →
  let m := foldl (λ m '(k, v), RAM.write m k v) (RAM.new n) ws in
  RAM.read (RAM.new n) a = 0
  ∧ RAM.wf m
  ∧ RAM_bytes m
  ∧ 0 <= RAM.read m a < 256
  ∧ RAM.size m = n.
Proof.
  intros Hn m.
  assert (H0 : RAM_bytes (RAM.new n)).
  { unfold RAM_bytes, RAM.new. cbn [RAM.data]. apply Forall_replicate. lia. }
  assert (Hm : RAM.wf m ∧ RAM_bytes m ∧ RAM.size m = n).
  { exact (writes_keep ws (RAM.new n) (RAM_new_wf n Hn) H0). }
  destruct Hm as (Hwf & Hb & Hsz).
  split; [|split; [done|split; [done|split; [by apply RAM_read_byte|done]]]].
  pose proof (RAM_read_lookup (RAM.new n) a (RAM_new_wf n Hn)) as Hl.
  apply lookup_replicate_1 in Hl. by destruct Hl.
Qed.

Lemma memory_holds_bytes_witness :
  RAM.read (RAM.new 64) (-1) = 0
  ∧ 0 <= RAM.read (foldl (λ m '(k, v), RAM.write m k v) (RAM.new 64)
                         [(1, 1000); (-1, -7)]) (-1) < 256.
Proof.
  destruct (memory_holds_bytes 64 [(1, 1000); (-1, -7)] (-1) ltac:(lia))
    as (H1 & _ & _ & H2 & _).
  split; [exact H1 | exact H2].
Defined.

(** ** The instructions, one by one *)

Ltac op_facts :=
  repeat match goal with
         | H : (_ =? _) = true |- _ => apply Z.eqb_eq in H
         | H : (_ =? _) = false |- _ => apply Z.eqb_neq in H
         end;
  unfold OPCODES.NOP, OPCODES.LOAD, OPCODES.STORE, OPCODES.ADD, OPCODES.SUB,
    OPCODES.JMP, OPCODES.JZ, OPCODES.OUT, OPCODES.HALT in *.

(** Runs a call symbolically and closes the arms that contradict what is
    known about the opcode. *)
Ltac step_by_opcode c :=
  unfold opcode, operand in *; step_cases c; op_facts;
  try (exfalso; lia); try (exfalso; congruence).

(** X4: the accumulator and the zero flag.  [LOAD] copies the addressed
    cell, [ADD] and [SUB] add and subtract it modulo 256 (a negative
    difference wraps to [256 - ...]), and each sets the zero flag to
    whether the new accumulator is 0; no other instruction changes the
    accumulator or the flag. *)
Theorem alu_and_zero_flag (c : CPU.t) :
  CPU.halted c = false →
  let val := RAM.read (CPU.ram c) (operand c) in
  let c' := CPU.after c in
  (opcode c = OPCODES.LOAD →
     CPU.ACC c' = val ∧ CPU.zero c' = (CPU.ACC c' =? 0))
  ∧ (opcode c = OPCODES.ADD →
     CPU.ACC c' = (CPU.ACC c + val) mod 256 ∧ CPU.zero c' = (CPU.ACC c' =? 0))
  ∧ (opcode c = OPCODES.SUB →
     CPU.ACC c' = (CPU.ACC c - val) mod 256 ∧ CPU.zero c' = (CPU.ACC c' =? 0))
  ∧ (opcode c ≠ OPCODES.LOAD → opcode c ≠ OPCODES.ADD → opcode c ≠ OPCODES.SUB →
     CPU.ACC c' = CPU.ACC c ∧ CPU.zero c' = CPU.zero c).
Proof.
  intros Hh val c'. subst val c'.
  split; [|split; [|split]]; intros;
    step_by_opcode c; rewrite <- ?land_255; done.
Qed.

Lemma alu_and_zero_flag_witness :
  let c := CPU.after (boot sampleProgram [(10, 250); (11, 6)] machine0) in
  CPU.halted c = false ∧ opcode c = OPCODES.ADD
  ∧ CPU.ACC (CPU.after c) = 0 ∧ CPU.zero (CPU.after c) = true.
Proof.
  intros c. split; [reflexivity|]. split; [reflexivity|].
  exact (proj1 (proj2 (alu_and_zero_flag c eq_refl)) eq_refl).
Defined.

(** X5: only [STORE] writes the memory.  It writes the accumulator to
    the cell its operand addresses, so that cell then reads
    [ACC mod 256], and it changes neither the accumulator nor the flag;
    every other instruction leaves the whole memory as it was. *)
Theorem store_is_the_only_write (c : CPU.t) :
  CPU.halted c = false →
  (opcode c = OPCODES.STORE →
     CPU.ram (CPU.after c) = RAM.write (CPU.ram c) (operand c) (CPU.ACC c)
     ∧ (RAM.wf (CPU.ram c) →
        RAM.read (CPU.ram (CPU.after c)) (operand c) = CPU.ACC c mod 256)
     ∧ CPU.PC (CPU.after c) = CPU.PC c + 2)
  ∧ (opcode c ≠ OPCODES.STORE → CPU.ram (CPU.after c) = CPU.ram c).
Proof.
  intros Hh. split; intros Hop.
  - assert (E : CPU.ram (CPU.after c) = RAM.write (CPU.ram c) (operand c) (CPU.ACC c)
                ∧ CPU.PC (CPU.after c) = CPU.PC c + 2).
    { clear -Hh Hop. step_by_opcode c; (split; [done|lia]). }
    destruct E as [E1 E2]. split; [done|]. split; [|done].
    intros Hwf. rewrite E1, read_over_write_same by done. done.
  - step_by_opcode c; done.
Qed.

Lemma store_is_the_only_write_witness :
  let c := CPU.steps 3 (boot sampleProgram sampleData machine0) in
  CPU.halted c = false ∧ opcode c = OPCODES.STORE ∧ RAM.wf (CPU.ram c)
  ∧ RAM.read (CPU.ram (CPU.after c)) 12 = 10.
Proof.
  intros c. split; [reflexivity|]. split; [reflexivity|].
  assert (Hwf : RAM.wf (CPU.ram c)) by (split; reflexivity).
  split; [exact Hwf|].
  exact (proj1 (proj2 (proj1 (store_is_the_only_write c eq_refl) eq_refl)) Hwf).
Defined.

(** X6: a unit halts on the opcode 255 and on nothing else.  The call
    that executes [HALT] still returns the register snapshot (the sentinel
    comes from the next call on), leaves [PC] one past the opcode and
    touches neither accumulator, flag nor memory. *)
Theorem halts_exactly_on_HALT (c : CPU.t) :
  CPU.halted c = false →
  (CPU.halted (CPU.after c) = true ↔ opcode c = OPCODES.HALT)
  ∧ CPU.returned c = StepState (CPU.PC (CPU.after c)) (CPU.ACC (CPU.after c))
                               (CPU.IR (CPU.after c)) (CPU.zero (CPU.after c))
  ∧ (opcode c = OPCODES.HALT →
     CPU.PC (CPU.after c) = CPU.PC c + 1
     ∧ CPU.ACC (CPU.after c) = CPU.ACC c
     ∧ CPU.zero (CPU.after c) = CPU.zero c
     ∧ CPU.ram (CPU.after c) = CPU.ram c
     ∧ CPU.returned (CPU.after c) = HaltSentinel).
Proof.
  intros Hh. split; [|split].
  - split; intros H.
    + revert H. step_by_opcode c; done.
    + step_by_opcode c; done.
  - step_by_opcode c; done.
  - intros Hop.
    assert (Hh' : CPU.halted (CPU.after c) = true).
    { clear -Hh Hop. step_by_opcode c; done. }
    unfold CPU.returned at 1. rewrite (step_halted _ Hh'). clear Hh'.
    step_by_opcode c; done.
Qed.

Lemma halts_exactly_on_HALT_witness :
  let c := CPU.steps 4 (boot sampleProgram sampleData machine0) in
  CPU.halted c = false ∧ opcode c = OPCODES.HALT
  ∧ CPU.halted (CPU.after c) = true
  ∧ CPU.returned c = StepState 8 10 255 false.
Proof.
  intros c. split; [reflexivity|]. split; [reflexivity|].
  destruct (halts_exactly_on_HALT c eq_refl) as (H1 & H2 & _).
  split; [exact (proj2 H1 eq_refl) | exact H2].
Defined.

(** X7: [NOP], [OUT] and every value that is no opcode are inert: the
    call records the byte in [IR], moves [PC] one cell on and changes
    neither accumulator, flag, halted flag nor memory.  The observer is
    told [NOP], [OUT <acc>] or [DATA <byte>]. *)
Theorem inert_opcodes (c : CPU.t) :
  CPU.halted c = false →
  (opcode c < OPCODES.LOAD ∨ OPCODES.JZ < opcode c) →
  opcode c ≠ OPCODES.HALT →
  let c' := CPU.after c in
  CPU.IR c' = opcode c
  ∧ CPU.PC c' = CPU.PC c + 1
  ∧ CPU.ACC c' = CPU.ACC c
  ∧ CPU.zero c' = CPU.zero c
  ∧ CPU.halted c' = false
  ∧ CPU.ram c' = CPU.ram c
  ∧ (CPU.onStep c = true →
     action <$> onStep_calls (CPU.emitted c) =
       [ if decide (opcode c = OPCODES.NOP) then "NOP"%string
         else if decide (opcode c = OPCODES.OUT)
              then ("OUT " +:+ pretty (CPU.ACC c))%string
              else ("DATA " +:+ pretty (opcode c))%string ]).
Proof.
  intros Hh Hrange Hne c'. subst c'.
  split; [|split; [|split; [|split; [|split; [|split]]]]]; try intros Hf;
    step_by_opcode c; try done;
    rewrite ?onStep_calls_app, ?onStep_calls_bus; cbn;
    repeat case_decide; try done; exfalso; lia.
Qed.

Lemma inert_opcodes_witness :
  let c := CPU.set_PC 10 (boot sampleProgram [(10, 99)] machine0) in
  CPU.halted c = false ∧ opcode c = 99
  ∧ CPU.PC (CPU.after c) = 11
  ∧ action <$> onStep_calls (CPU.emitted c) = ["DATA 99"%string].
Proof.
  intros c. split; [reflexivity|]. split; [reflexivity|].
  assert (Hr : opcode c < OPCODES.LOAD ∨ OPCODES.JZ < opcode c)
    by (right; vm_compute; reflexivity).
  assert (Hn : opcode c ≠ OPCODES.HALT) by (vm_compute; discriminate).
  destruct (inert_opcodes c eq_refl Hr Hn) as (_ & H1 & _ & _ & _ & _ & H2).
  split; [exact H1 | exact (H2 eq_refl)].
Defined.

(** X8: the jumps.  [JMP] sets [PC] to its operand byte; [JZ] does so
    when the zero flag is set and otherwise leaves [PC] two cells on.
    Neither changes the accumulator, the flag or the memory, and the
    target is taken as it is (a byte, not reduced to the capacity). *)
Theorem jumps (c : CPU.t) :
  CPU.halted c = false →
  opcode c = OPCODES.JMP ∨ opcode c = OPCODES.JZ →
  let c' := CPU.after c in
  CPU.PC c' =
    (if decide (opcode c = OPCODES.JMP) then operand c
     else if CPU.zero c then operand c else CPU.PC c + 2)
  ∧ CPU.ACC c' = CPU.ACC c
  ∧ CPU.zero c' = CPU.zero c
  ∧ CPU.halted c' = false
  ∧ CPU.ram c' = CPU.ram c.
Proof.
  intros Hh Hop c'. subst c'.
  split; [|split; [|split; [|split]]];
    step_by_opcode c; try done; try (destruct Hop; exfalso; lia);
    repeat case_decide; try done; try lia; exfalso; lia.
Qed.

Lemma jumps_witness :
  let c := CPU.after (boot jumpProgram [(5, 1)] machine0) in
  CPU.halted c = false ∧ opcode c = OPCODES.JZ ∧ CPU.zero c = false
  ∧ CPU.PC (CPU.after c) = 4.
Proof.
  intros c. split; [reflexivity|]. split; [reflexivity|]. split; [reflexivity|].
  exact (proj1 (jumps c eq_refl (or_intror eq_refl))).
Defined.

(** ** Channel traffic of a call *)

(** X9: what a call of [step()] on a running unit sends.  Every listener
    first receives the fetch ([addr = PC], [control = FETCH], merged into
    the lines); for [LOAD], [ADD], [SUB] and [STORE] every listener then
    receives the memory transaction merged on top of it; the operand
    fetch and the jumps send nothing.  The observer, if called, comes
    after the channel traffic, and the deferred clear is scheduled last,
    exactly once. *)
Theorem channel_traffic (c : CPU.t) :
  CPU.halted c = false →
  let ls := Bus.listeners (CPU.bus c) in
  let fetch := Bus.spread (Bus.lines (CPU.bus c))
                          (addr_control (CPU.PC c) "FETCH") in
  bus_deliveries (CPU.emitted c) =
    map (λ cb, (cb, fetch)) ls
    ++ match mem_transaction c with
       | Some p => map (λ cb, (cb, Bus.spread fetch p)) ls
       | None => []
       end
  ∧ Bus.lines (CPU.bus (CPU.after c)) =
      match mem_transaction c with
      | Some p => Bus.spread fetch p
      | None => fetch
      end
  ∧ ∃ bs obs, CPU.emitted c = bs ++ obs ++ [DeferBusClear]
              ∧ onStep_calls bs = [] ∧ bus_deliveries obs = []
              ∧ DeferBusClear ∉ bs ++ obs.
Proof.
  intros Hh ls fetch. subst ls fetch. unfold mem_transaction.
  split; [|split].
  - step_by_opcode c; repeat case_decide; try (exfalso; lia);
      rewrite ?bus_deliveries_app, ?bus_deliveries_bus; cbn;
      rewrite ?app_nil_r; done.
  - step_by_opcode c; repeat case_decide; try (exfalso; lia); done.
  - assert (Hnb : ∀ l (cbs : list nat),
               DeferBusClear ∉ map (λ cb, BusListener cb l) cbs).
    { intros l cbs [cb [? _]]%list_elem_of_fmap. done. }
    step_by_opcode c; simpl; repeat rewrite <- app_assoc; simpl;
      lazymatch goal with
      | |- ∃ bs obs, ?b1 ++ [?o; _] = _ ∧ _ =>
          exists b1, [o]; split; [done|];
          rewrite ?onStep_calls_bus; split; [done|];
          split; [done|]; rewrite !not_elem_of_app; split_and!; try apply Hnb;
          rewrite list_elem_of_singleton; done
      | |- ∃ bs obs, ?b1 ++ [_] = _ ∧ _ =>
          exists b1, []; split; [done|];
          rewrite ?onStep_calls_bus; split; [done|];
          split; [done|]; rewrite !not_elem_of_app; split_and!; try apply Hnb;
          apply not_elem_of_nil
      | |- ∃ bs obs, ?b1 ++ ?b2 ++ [?o; _] = _ ∧ _ =>
          exists (b1 ++ b2), [o]; split; [by rewrite <- app_assoc|];
          rewrite ?onStep_calls_app, ?onStep_calls_bus; split; [done|];
          split; [done|]; rewrite !not_elem_of_app; split_and!; try apply Hnb;
          rewrite list_elem_of_singleton; done
      | |- ∃ bs obs, ?b1 ++ ?b2 ++ [_] = _ ∧ _ =>
          exists (b1 ++ b2), []; split; [by rewrite <- app_assoc|];
          rewrite ?onStep_calls_app, ?onStep_calls_bus; split; [done|];
          split; [done|]; rewrite !not_elem_of_app; split_and!; try apply Hnb;
          apply not_elem_of_nil
      end.
Qed.

Lemma channel_traffic_witness :
  let c := CPU.steps 3 (boot sampleProgram sampleData
                          (CPU.new (RAM.new 64)
                             (Bus.onChange (Bus.onChange Bus.new 0%nat) 1%nat))) in
  CPU.halted c = false
  ∧ bus_deliveries (CPU.emitted c) =
      [ (0%nat, mkLines (Some 5) None (Some "FETCH"%string));
        (1%nat, mkLines (Some 5) None (Some "FETCH"%string));
        (0%nat, mkLines (Some 12) (Some 10) (Some "WRITE"%string));
        (1%nat, mkLines (Some 12) (Some 10) (Some "WRITE"%string)) ].
Proof.
  intros c. split; [reflexivity|].
  exact (proj1 (channel_traffic c eq_refl)).
Defined.

(** ** Bytes everywhere *)

Lemma mod_neq_gap (a b n : Z) : 0 < a - b < n → a mod n ≠ b mod n.
Proof.
  intros Hg E.
  assert (H0 : (a - b) mod n = 0).
  { rewrite Zminus_mod, E, Z.sub_diag. apply Z.mod_0_l. lia. }
  rewrite Z.mod_small in H0 by lia. lia.
Qed.

Lemma read_over_write_ne (m : RAM.t) (a b v : Z) :
  RAM.wf m → a mod RAM.size m ≠ b mod RAM.size m →
  RAM.read (RAM.write m a v) b = RAM.read m b.
Proof.
  intros Hwf Hne. destruct (Hwf) as [Hs Hl].
  pose proof (RAM_wrap_range m a Hs) as Ra. pose proof (RAM_wrap_range m b Hs) as Rb.
  rewrite <- !RAM_wrap_mod in Hne by done.
  unfold RAM.read, RAM.write. cbn [RAM.data RAM.size].
  change (Z.rem (Z.rem ?x (RAM.size m) + RAM.size m) (RAM.size m))
    with (RAM._wrap m x) in *.
  unfold RAM._wrap at 1. cbn [RAM.size]. fold (RAM._wrap m b).
  by rewrite list_lookup_insert_ne by lia.
Qed.

Lemma loadProgram_ram (program : list Z) (start : Z) (c : CPU.t) :
  CPU.ram (CPU.loadProgram program start c) =
    foldl (λ m '(k, v), RAM.write m k v) (CPU.ram c)
          (imap (λ i b, (start + Z.of_nat i, b)) program).
Proof.
  unfold CPU.loadProgram. cbn [CPU.ram CPU.set_PC CPU.set_ram].
  generalize (CPU.ram c). clear c.
  assert (G : ∀ (f : nat → nat) (l : list Z) (m : RAM.t),
             foldl (λ m '(i, b), RAM.write m (start + Z.of_nat i) b) m
                   (imap (λ i b, (f i, b)) l)
             = foldl (λ m '(k, v), RAM.write m k v) m
                     (imap (λ i b, (start + Z.of_nat (f i), b)) l)).
  { intros f l. revert f. induction l as [|x l IH]; intros f m; [done|].
    simpl. apply (IH (f ∘ S)). }
  intros m. apply (G id).
Qed.

Lemma after_bytes (c : CPU.t) : CPU_bytes c → CPU_bytes (CPU.after c).
Proof.
  intros (Hwf & Hb & Ha & Hi & Hp).
  destruct (CPU.halted c) eqn:Hh.
  { rewrite after_halted by done. done. }
  assert (Hr : ∀ x, 0 <= RAM.read (CPU.ram c) x < 256).
  { intros x. by apply RAM_read_byte. }
  unfold CPU_bytes.
  step_cases c; rewrite ?land_255;
    repeat match goal with
           | |- 0 <= _ mod 256 < 256 => apply Z.mod_pos_bound; lia
           | |- 0 <= RAM.read _ _ < 256 => apply Hr
           | |- 0 <= RAM.read _ ?x => pose proof (Hr x); lia
           | |- RAM.wf (RAM.write _ _ _) => by apply RAM_write_wf
           | |- RAM_bytes (RAM.write _ _ _) => by apply RAM_write_bytes
           | |- _ ∧ _ => split
           end; try done; try lia.
Qed.

Lemma after_size (c : CPU.t) :
  RAM.size (CPU.ram (CPU.after c)) = RAM.size (CPU.ram c).
Proof.
  destruct (CPU.halted c) eqn:Hh.
  - by rewrite after_halted.
  - step_cases c; done.
Qed.

(** X10: every machine the driver builds and runs holds bytes.  From a
    fresh unit over a memory of positive capacity, after loading any
    program at any address, preloading any data and any number of calls
    of [step()]: the memory still has its capacity and its [size] cells,
    each a byte; [ACC] and [IR] are bytes; [PC] is never negative. *)
Theorem machine_holds_bytes
    (n : Z) (bus0 : Bus.t) (program : list Z) (start : Z)
    (data : list (Z * Z)) (k : nat) :
  0 < n → 0 <= start →
  let c := CPU.steps k (preload data
             (CPU.loadProgram program start (CPU.reset (CPU.new (RAM.new n) bus0)))) in
  CPU_bytes c ∧ RAM.size (CPU.ram c) = n.
Proof.
  intros Hn Hstart.
  set (c0 := preload data _). cbn zeta.
  assert (H0 : CPU_bytes c0 ∧ RAM.size (CPU.ram c0) = n).
  { subst c0. unfold CPU_bytes, preload. cbn [CPU.ram CPU.set_ram CPU.ACC CPU.IR CPU.PC].
    rewrite loadProgram_ram.
    cbn [CPU.reset CPU.new CPU.ram CPU.set_halted CPU.set_zero CPU.set_IR
         CPU.set_ACC CPU.set_PC CPU.loadProgram CPU.set_ram CPU.ACC CPU.IR CPU.PC
         CPU.bus CPU.zero CPU.halted CPU.onStep].
    assert (Hb0 : RAM_bytes (RAM.new n)).
    { unfold RAM_bytes, RAM.new. cbn [RAM.data]. apply Forall_replicate. lia. }
    destruct (writes_keep (imap (λ i b, (start + Z.of_nat i, b)) program)
                (RAM.new n) (RAM_new_wf n Hn) Hb0) as (W1 & B1 & S1).
    destruct (writes_keep data _ W1 B1) as (W2 & B2 & S2).
    split; [|by rewrite S2, S1].
    split; [done|]. split; [done|]. lia. }
  clearbody c0. revert c0 H0.
  induction k as [|k IH]; intros c0 [H0 S0]; [done|].
  simpl. apply IH. split; [by apply after_bytes | by rewrite after_size].
Qed.

Lemma machine_holds_bytes_witness :
  CPU_bytes (CPU.steps 9 (preload [(5, -1); (70, 1000)]
               (CPU.loadProgram [OPCODES.SUB; 5; OPCODES.JMP; 0] 62
                  (CPU.reset (CPU.new (RAM.new 64) Bus.new))))).
Proof.
  apply (proj1 (machine_holds_bytes 64 Bus.new [OPCODES.SUB; 5; OPCODES.JMP; 0] 62
                  [(5, -1); (70, 1000)] 9 ltac:(lia) ltac:(lia))).
Defined.

(** ** Loading and resetting *)

Lemma loadProgram_ram_snoc (program : list Z) (x start : Z) (c : CPU.t) :
  CPU.ram (CPU.loadProgram (program ++ [x]) start c) =
    RAM.write (CPU.ram (CPU.loadProgram program start c))
              (start + Z.of_nat (length program)) x.
Proof.
  rewrite !loadProgram_ram, imap_app, foldl_app. cbn.
  by rewrite Nat.add_0_r.
Qed.

Lemma loadProgram_wf (program : list Z) (start : Z) (c : CPU.t) :
  RAM.wf (CPU.ram c) →
  RAM.wf (CPU.ram (CPU.loadProgram program start c))
  ∧ RAM.size (CPU.ram (CPU.loadProgram program start c)) = RAM.size (CPU.ram c).
Proof.
  intros Hwf. induction program as [|x program IH] using rev_ind; [done|].
  rewrite loadProgram_ram_snoc. destruct IH as [IH1 IH2].
  split; [by apply RAM_write_wf | done].
Qed.

Lemma loadProgram_read (program : list Z) (start : Z) (c : CPU.t) (i : nat) (x : Z) :
  RAM.wf (CPU.ram c) →
  Z.of_nat (length program) <= RAM.size (CPU.ram c) →
  program !! i = Some x →
  RAM.read (CPU.ram (CPU.loadProgram program start c)) (start + Z.of_nat i)
    = x mod 256.
Proof.
  intros Hwf. revert i x.
  induction program as [|y program IH] using rev_ind; intros i x Hlen Hi; [done|].
  rewrite length_app in Hlen. cbn in Hlen.
  destruct (loadProgram_wf program start c Hwf) as [Hwf' Hsz].
  rewrite loadProgram_ram_snoc.
  destruct (decide (i = length program)) as [->|Hne].
  - rewrite list_lookup_middle in Hi by done. simplify_eq.
    by apply read_over_write_same.
  - assert (Hlt : (i < length program)%nat).
    { apply lookup_lt_Some in Hi. rewrite length_app in Hi. cbn in Hi. lia. }
    rewrite lookup_app_l in Hi by done.
    rewrite read_over_write_ne; [apply IH; [lia|done] | done |].
    rewrite Hsz. apply mod_neq_gap. lia.
Qed.

Lemma loadProgram_frame (program : list Z) (start b : Z) (c : CPU.t) :
  RAM.wf (CPU.ram c) →
  (∀ i, (i < length program)%nat →
        (start + Z.of_nat i) mod RAM.size (CPU.ram c) ≠ b mod RAM.size (CPU.ram c)) →
  RAM.read (CPU.ram (CPU.loadProgram program start c)) b = RAM.read (CPU.ram c) b.
Proof.
  intros Hwf.
  induction program as [|y program IH] using rev_ind; intros Hout; [done|].
  destruct (loadProgram_wf program start c Hwf) as [Hwf' Hsz].
  rewrite loadProgram_ram_snoc.
  rewrite read_over_write_ne; [| done |].
  - apply IH. intros i Hi. apply Hout. rewrite length_app. lia.
  - rewrite Hsz. apply Hout. rewrite length_app. cbn. lia.
Qed.

(** X11: [loadProgram(program, start)] on a program that fits the
    memory: cell [start + i] (taken modulo the capacity) then reads
    [program[i] mod 256], every cell outside the written range reads as
    before, [PC] is [start], and nothing else of the unit changes: not
    the accumulator, not the flag, not even the halted flag. *)
Theorem loadProgram_reads_back (program : list Z) (start : Z) (c : CPU.t) :
  RAM.wf (CPU.ram c) →
  Z.of_nat (length program) <= RAM.size (CPU.ram c) →
  let c' := CPU.loadProgram program start c in
  (∀ i x, program !! i = Some x →
          RAM.read (CPU.ram c') (start + Z.of_nat i) = x mod 256)
  ∧ (∀ b, (∀ i, (i < length program)%nat →
                (start + Z.of_nat i) mod RAM.size (CPU.ram c)
                  ≠ b mod RAM.size (CPU.ram c)) →
          RAM.read (CPU.ram c') b = RAM.read (CPU.ram c) b)
  ∧ CPU.PC c' = start
  ∧ (CPU.ACC c', CPU.IR c', CPU.zero c', CPU.halted c', CPU.bus c', CPU.onStep c')
    = (CPU.ACC c, CPU.IR c, CPU.zero c, CPU.halted c, CPU.bus c, CPU.onStep c).
Proof.
  intros Hwf Hlen c'. subst c'. split; [|split; [|split]].
  - intros i x Hi. by apply loadProgram_read.
  - intros b Hout. by apply loadProgram_frame.
  - done.
  - done.
Qed.

Lemma loadProgram_reads_back_witness :
  let c := CPU.loadProgram [300; 2; 3] 63 machine0 in
  RAM.wf (CPU.ram machine0)
  ∧ RAM.read (CPU.ram c) 63 = 44
  ∧ RAM.read (CPU.ram c) 64 = 2
  ∧ RAM.read (CPU.ram c) 65 = 3
  ∧ CPU.PC c = 63.
Proof.
  intros c.
  assert (Hwf : RAM.wf (CPU.ram machine0)) by (split; reflexivity).
  assert (Hlen : Z.of_nat (length [300; 2; 3]) <= RAM.size (CPU.ram machine0))
    by (vm_compute; discriminate).
  destruct (loadProgram_reads_back [300; 2; 3] 63 machine0 Hwf Hlen)
    as (H & _ & Hpc & _).
  split; [exact Hwf|]. split; [exact (H 0%nat 300 eq_refl)|].
  split; [|split; [|exact Hpc]].
  - exact (H 1%nat 2 eq_refl).
  - exact (H 2%nat 3 eq_refl).
Defined.

(** X12: [reset()] zeroes the registers and clears both flags, touches
    neither memory, channel nor observer, and doing it twice is doing it
    once.  It is what revives a halted unit: the next call of [step()]
    fetches the byte at address 0 of the untouched memory. *)
Theorem reset_revives (c : CPU.t) :
  CPU.reset (CPU.reset c) = CPU.reset c
  ∧ (CPU.PC (CPU.reset c), CPU.ACC (CPU.reset c), CPU.IR (CPU.reset c),
     CPU.zero (CPU.reset c), CPU.halted (CPU.reset c)) = (0, 0, 0, false, false)
  ∧ (CPU.ram (CPU.reset c), CPU.bus (CPU.reset c), CPU.onStep (CPU.reset c))
    = (CPU.ram c, CPU.bus c, CPU.onStep c)
  ∧ CPU.IR (CPU.after (CPU.reset c)) = RAM.read (CPU.ram c) 0
  ∧ CPU.returned (CPU.reset c) ≠ HaltSentinel.
Proof.
  split; [done|]. split; [done|]. split; [done|].
  assert (G : ∀ c0, CPU.halted c0 = false →
                CPU.IR (CPU.after c0) = RAM.read (CPU.ram c0) (CPU.PC c0)
                ∧ CPU.returned c0 ≠ HaltSentinel).
  { clear c. intros c0 Hh. split; step_by_opcode c0; done. }
  apply (G (CPU.reset c)). done.
Qed.

(** X13: [resetAll()] brings any machine back to the state of a fresh
    start, whatever ran before: registers, flags and memory are those of
    a new unit over a zeroed memory of the same capacity with the sample
    program and data loaded; the lines are [null] and every listener is
    told so; listeners and observer stay registered. *)
Theorem resetAll_restores_boot (c : CPU.t) :
  RAM.wf (CPU.ram c) →
  let fresh := CPU.new (RAM.new (RAM.size (CPU.ram c))) Bus.new in
  arch (resetAll c).1 = arch (boot sampleProgram sampleData fresh)
  ∧ Bus.lines (CPU.bus (resetAll c).1) = Bus.null_lines
  ∧ Bus.listeners (CPU.bus (resetAll c).1) = Bus.listeners (CPU.bus c)
  ∧ CPU.onStep (resetAll c).1 = CPU.onStep c
  ∧ bus_deliveries (resetAll c).2 =
      map (λ cb, (cb, Bus.null_lines)) (Bus.listeners (CPU.bus c)).
Proof.
  intros [Hs Hl] fresh. subst fresh.
  assert (Hfill : RAM.data_fill (CPU.ram c) 0 = RAM.new (RAM.size (CPU.ram c))).
  { unfold RAM.data_fill, RAM.new. f_equal. f_equal. lia. }
  split; [|split; [done|split; [done|split; [done|]]]].
  - unfold resetAll, boot, arch, preload.
    cbn [Bus.clear fst snd CPU.ram CPU.set_bus CPU.set_ram CPU.PC CPU.ACC
         CPU.IR CPU.zero CPU.halted].
    rewrite !loadProgram_ram.
    cbn [CPU.ram CPU.reset CPU.set_halted CPU.set_zero CPU.set_IR CPU.set_ACC
         CPU.set_PC CPU.set_ram CPU.new CPU.loadProgram CPU.PC CPU.ACC CPU.IR
         CPU.zero CPU.halted].
    by rewrite Hfill.
  - unfold resetAll, Bus.clear, Bus._notify. cbn [snd Bus.lines Bus.listeners].
    by rewrite bus_deliveries_bus.
Qed.

Lemma resetAll_restores_boot_witness :
  let c := CPU.steps 5 (boot sampleProgram sampleData
                          (CPU.new (RAM.new 64) (Bus.onChange Bus.new 0%nat))) in
  RAM.wf (CPU.ram c) ∧ CPU.halted c = true
  ∧ arch (resetAll c).1 = arch (boot sampleProgram sampleData machine0)
  ∧ bus_deliveries (resetAll c).2 = [(0%nat, Bus.null_lines)].
Proof.
  intros c.
  assert (Hwf : RAM.wf (CPU.ram c)) by (split; reflexivity).
  destruct (resetAll_restores_boot c Hwf) as (H1 & _ & _ & _ & H2).
  split; [exact Hwf|]. split; [reflexivity|]. split; [exact H1 | exact H2].
Defined.

(** ** The channel *)

Lemma foldl_onChange (cbs : list nat) (b : Bus.t) :
  foldl Bus.onChange b cbs
  = {| Bus.lines := Bus.lines b; Bus.listeners := Bus.listeners b ++ cbs |}.
Proof.
  revert b. induction cbs as [|cb cbs IH]; intros b.
  - destruct b. cbn. by rewrite app_nil_r.
  - cbn [foldl]. rewrite IH. cbn. by rewrite <- app_assoc.
Qed.

(** X14: listeners.  Registering with [onChange] changes no line and
    calls nobody; afterwards every [send] and every [clear] calls each
    registered listener once per registration, in registration order,
    with the lines as the operation left them, and keeps the
    registrations (nothing ever removes a listener). *)
Theorem listeners_called_in_order (cbs : list nat) (b : Bus.t) (p : Bus.packet) :
  let b' := foldl Bus.onChange b cbs in
  let all := Bus.listeners b ++ cbs in
  Bus.lines b' = Bus.lines b
  ∧ Bus.listeners b' = all
  ∧ bus_deliveries (Bus.send b' p).2
    = map (λ cb, (cb, Bus.spread (Bus.lines b) p)) all
  ∧ bus_deliveries (Bus.clear b').2 = map (λ cb, (cb, Bus.null_lines)) all
  ∧ Bus.listeners (Bus.send b' p).1 = all
  ∧ Bus.listeners (Bus.clear b').1 = all.
Proof.
  intros b' all. subst b' all. rewrite foldl_onChange.
  unfold Bus.send, Bus.clear, Bus._notify. cbn [fst snd Bus.lines Bus.listeners].
  rewrite !bus_deliveries_bus. done.
Qed.

(** ** Numbers to property names and back *)

Lemma digit_val_pretty_char (d : N) :
  (d < 10)%N → JS.digit_val (pretty_N_char d) = Some (Z.of_N d).
Proof.
  intros Hd.
  assert (d = 0 ∨ d = 1 ∨ d = 2 ∨ d = 3 ∨ d = 4 ∨ d = 5 ∨ d = 6 ∨ d = 7
          ∨ d = 8 ∨ d = 9)%N as H by lia.
  destruct_or!; subst; reflexivity.
Qed.

Lemma is_digit_pretty_char (d : N) : (d < 10)%N → is_digit (pretty_N_char d) = true.
Proof.
  intros Hd. unfold is_digit. rewrite digit_val_pretty_char by done.
  apply Z.ltb_lt. lia.
Qed.

Lemma plain_numeral_cons (c : ascii) (s : string) :
  is_digit c = true → s = EmptyString ∨ plain_numeral s = true →
  plain_numeral (String c s) = true.
Proof.
  intros Hc [->|Hs]; [done|].
  destruct s as [|c2 s]; [done|]. cbn. rewrite Hc. cbn.
  destruct s; cbn in Hs; [done|]. by apply andb_true_iff in Hs as [? _].
Qed.

Lemma pretty_N_go_plain (x : N) (s : string) :
  (0 < x)%N → s = EmptyString ∨ plain_numeral s = true →
  plain_numeral (pretty_N_go x s) = true.
Proof.
  revert s. induction (N.lt_wf_0 x) as [x _ IH]; intros s Hx Hs.
  rewrite pretty_N_go_step by done.
  assert (Hc : plain_numeral (String (pretty_N_char (x `mod` 10)) s) = true).
  { apply plain_numeral_cons; [|done]. apply is_digit_pretty_char.
    by apply N.mod_lt. }
  destruct (decide (x `div` 10 = 0)%N) as [->|Hne].
  - by rewrite pretty_N_go_0.
  - apply IH; [by apply N.div_lt | by apply N.neq_0_lt_0 | by right].
Qed.

Lemma digits_pretty_N_go (x : N) (s : string) :
  (0 < x)%N →
  JS.digits 10 (pretty_N_go x s) None = JS.digits 10 s (Some (Z.of_N x)).
Proof.
  revert s. induction (N.lt_wf_0 x) as [x _ IH]; intros s Hx.
  rewrite pretty_N_go_step by done.
  pose proof (N.mod_lt x 10 ltac:(done)) as Hm.
  pose proof (N.div_mod x 10 ltac:(done)) as Hdm.
  assert (Hlt : (x `div` 10 < x)%N) by (by apply N.div_lt).
  destruct (decide (x `div` 10 = 0)%N) as [E|Hne].
  - rewrite E, pretty_N_go_0. cbn [JS.digits].
    rewrite digit_val_pretty_char by done.
    remember (x `mod` 10)%N as r. remember (x `div` 10)%N as q.
    destruct (Z.ltb_spec (Z.of_N r) 10); [|lia].
    f_equal. f_equal. unfold default, from_option, id. lia.
  - rewrite IH by (done || by apply N.neq_0_lt_0). cbn [JS.digits].
    rewrite digit_val_pretty_char by done.
    remember (x `mod` 10)%N as r. remember (x `div` 10)%N as q.
    destruct (Z.ltb_spec (Z.of_N r) 10); [|lia].
    f_equal. f_equal. unfold default, from_option, id. lia.
Qed.

Lemma parseInt_plain (s : string) :
  plain_numeral s = true →
  JS.parseInt_string s = JS.digits 10 s None
  ∧ JS.parseInt_string (String "-" s) = (λ n, - n) <$> JS.digits 10 s None.
Proof.
  intros Hs.
  assert (Hid : ∀ o : option Z, (λ n, 1 * n) <$> o = o).
  { intros [n|]; cbn; [f_equal; lia | done]. }
  assert (Hneg : ∀ o : option Z, (λ n, -1 * n) <$> o = (λ n, - n) <$> o).
  { intros [n|]; cbn; [f_equal; lia | done]. }
  cut (JS.parseInt_string s = (λ n, 1 * n) <$> JS.digits 10 s None
       ∧ JS.parseInt_string (String "-" s) = (λ n, -1 * n) <$> JS.digits 10 s None).
  { rewrite Hid, Hneg. done. }
  clear Hid Hneg.
  destruct s as [|c1 [|c2 r]]; [done| |].
  - cbn in Hs.
    destruct c1 as [[] [] [] [] [] [] [] []]; try discriminate Hs; split; reflexivity.
  - cbn in Hs. apply andb_true_iff in Hs as [H1 H2].
    destruct c1 as [[] [] [] [] [] [] [] []]; try discriminate H1;
      try (split; reflexivity);
      destruct c2 as [[] [] [] [] [] [] [] []]; try discriminate H2;
      split; reflexivity.
Qed.

Lemma parseInt_key_exact (n : JS.num) : JS.parseInt (Some (JS.key n)) = n.
Proof.
  assert (Hp : ∀ x, pretty (Z.pos x) = pretty_N_go (N.pos x) ""
                    ∧ pretty (Z.neg x) = String "-" (pretty_N_go (N.pos x) "")).
  { intros x. unfold pretty, pretty_Z, pretty, pretty_positive, pretty, pretty_N.
    by case_decide. }
  assert (Hplain : ∀ x, plain_numeral (pretty_N_go (N.pos x) "") = true).
  { intros x. apply pretty_N_go_plain; [lia | by left]. }
  unfold JS.parseInt, default, from_option, id.
  destruct n as [[|x|x]|]; [reflexivity| | |reflexivity]; unfold JS.key.
  - rewrite (proj1 (Hp x)), (proj1 (parseInt_plain _ (Hplain x))).
    by rewrite digits_pretty_N_go by lia.
  - rewrite (proj2 (Hp x)), (proj2 (parseInt_plain _ (Hplain x))).
    by rewrite digits_pretty_N_go by lia.
Qed.

(** X15: a number survives the trip through a property name.  The data
    object is keyed by [String(addr)], and the loader reads the keys back
    with [parseInt]: for every safe integer (magnitude at most
    [2^53 - 1], zero and negatives included) that gives the number again,
    still a safe integer, and for the key ["NaN"] it gives [NaN]. *)
Theorem parseInt_of_key (n : JS.num) :
  safe_number n →
  JS.parseInt (Some (JS.key n)) = n
  ∧ safe_number (JS.parseInt (Some (JS.key n))).
Proof.
  intros Hn. by rewrite parseInt_key_exact.
Qed.

Lemma parseInt_of_key_witness :
  safe_number (Some (-9007199254740991))
  ∧ JS.key (Some (-9007199254740991)) = "-9007199254740991"%string
  ∧ JS.parseInt (Some "-9007199254740991"%string) = Some (-9007199254740991)
  ∧ JS.parseInt (Some (JS.key None)) = None.
Proof.
  assert (H : safe_number (Some (-9007199254740991))) by (vm_compute; discriminate).
  split; [exact H|]. split; [reflexivity|]. split.
  - exact (proj1 (parseInt_of_key (Some (-9007199254740991)) H)).
  - exact (proj1 (parseInt_of_key None I)).
Defined.

(** ** The assembler reads mnemonics in any case *)

Lemma parseInt_string_steps (s : string) :
  JS.parseInt_string s =
    let '(sign, s1) := strip_sign (JS.trimStart s) in
    let '(R, s2) := strip_prefix s1 in
    (λ n, sign * n) <$> JS.digits R s2 None.
Proof. reflexivity. Qed.

Ltac ascii_cases c := destruct c as [[] [] [] [] [] [] [] []]; try reflexivity.

Lemma upper_space (c : ascii) : JS.is_space (JS.upper_char c) = JS.is_space c.
Proof. ascii_cases c. Qed.

Lemma upper_digit (c : ascii) : JS.digit_val (JS.upper_char c) = JS.digit_val c.
Proof. ascii_cases c. Qed.

Lemma upper_idem_char (c : ascii) : JS.upper_char (JS.upper_char c) = JS.upper_char c.
Proof. ascii_cases c. Qed.

Lemma upper_idem (s : string) : JS.toUpperCase (JS.toUpperCase s) = JS.toUpperCase s.
Proof. induction s as [|c s IH]; [done|]. cbn. by rewrite upper_idem_char, IH. Qed.

Lemma upper_trimStart (s : string) :
  JS.trimStart (JS.toUpperCase s) = JS.toUpperCase (JS.trimStart s).
Proof.
  induction s as [|c s IH]; [done|]. cbn. rewrite upper_space.
  by destruct (JS.is_space c).
Qed.

Lemma upper_rev_app (s acc : string) :
  String.rev_app (JS.toUpperCase s) (JS.toUpperCase acc)
  = JS.toUpperCase (String.rev_app s acc).
Proof.
  revert acc. induction s as [|c s IH]; intros acc; [done|].
  cbn. apply (IH (String c acc)).
Qed.

Lemma upper_trim (s : string) : JS.trim (JS.toUpperCase s) = JS.toUpperCase (JS.trim s).
Proof.
  unfold JS.trim, String.rev.
  rewrite upper_trimStart, (upper_rev_app _ ""), upper_trimStart.
  apply (upper_rev_app _ "").
Qed.

Lemma upper_snoc (s : string) (c : ascii) :
  JS.toUpperCase (s +:+ String c EmptyString)
  = JS.toUpperCase s +:+ String (JS.upper_char c) EmptyString.
Proof.
  induction s as [|d s IH]; [done|].
  change (String d s +:+ ?t) with (String d (s +:+ t)). cbn [JS.toUpperCase].
  by rewrite IH.
Qed.

Lemma upper_split_go (s cur : string) (sep : bool) :
  JS.split_go (JS.toUpperCase s) (JS.toUpperCase cur) sep
  = JS.toUpperCase <$> JS.split_go s cur sep.
Proof.
  revert cur sep. induction s as [|c s IH]; intros cur sep; [done|].
  cbn [JS.toUpperCase JS.split_go]. rewrite upper_space.
  destruct (JS.is_space c), sep.
  - apply (IH EmptyString true).
  - rewrite fmap_cons. f_equal. apply (IH EmptyString true).
  - rewrite <- upper_snoc. apply IH.
  - rewrite <- upper_snoc. apply IH.
Qed.

Lemma upper_digits (R : Z) (s : string) (acc : JS.num) :
  JS.digits R (JS.toUpperCase s) acc = JS.digits R s acc.
Proof.
  revert acc. induction s as [|c s IH]; intros acc; [done|].
  cbn. rewrite upper_digit. destruct (JS.digit_val c); [|done].
  by destruct (_ <? _).
Qed.

Lemma upper_strip_sign (s : string) :
  strip_sign (JS.toUpperCase s)
  = ((strip_sign s).1, JS.toUpperCase (strip_sign s).2).
Proof. destruct s as [|c s]; [done|]. ascii_cases c. Qed.

Lemma upper_strip_prefix (s : string) :
  strip_prefix (JS.toUpperCase s)
  = ((strip_prefix s).1, JS.toUpperCase (strip_prefix s).2).
Proof.
  destruct s as [|c1 [|c2 s]]; [done| |].
  - ascii_cases c1.
  - ascii_cases c1. ascii_cases c2.
Qed.

Lemma parseInt_upper (s : string) :
  JS.parseInt_string (JS.toUpperCase s) = JS.parseInt_string s.
Proof.
  rewrite !parseInt_string_steps, upper_trimStart, upper_strip_sign.
  destruct (strip_sign (JS.trimStart s)) as [sign s1]. cbn [fst snd].
  rewrite upper_strip_prefix.
  destruct (strip_prefix s1) as [R s2]. cbn [fst snd].
  by rewrite upper_digits.
Qed.

Lemma parseInt_upper_opt (o : option string) :
  JS.parseInt (JS.toUpperCase <$> o) = JS.parseInt o.
Proof. destruct o as [s|]; [|done]. apply parseInt_upper. Qed.

Lemma line_upper (r : Assembler.result) (ln : string) :
  Assembler.line r (JS.toUpperCase ln) = Assembler.line r ln.
Proof.
  unfold Assembler.line, JS.split_ws.
  rewrite upper_trim, (upper_split_go _ EmptyString false).
  rewrite !list_lookup_fmap.
  destruct (JS.split_go (JS.trim ln) "" false !! 0%nat) as [[|c p0]|]; [done| |done].
  cbn [fmap option_fmap option_map JS.toUpperCase].
  rewrite upper_idem_char, upper_idem.
  rewrite !parseInt_upper_opt.
  destruct (JS.split_go (JS.trim ln) "" false !! 1%nat) as [p1|]; [|done].
  cbn [fmap option_fmap option_map].
  unfold JS.parseInt. cbn [default from_option id]. by rewrite parseInt_upper.
Qed.

(** X16: mnemonics are read in any case, and so are hexadecimal
    operands: upper-casing the source lines changes nothing of what they
    assemble to, program and data alike. *)
Theorem assembler_case_insensitive (assemblies : list string) :
  Assembler.quickAssemble (JS.toUpperCase <$> assemblies)
  = Assembler.quickAssemble assemblies.
Proof.
  unfold Assembler.quickAssemble.
  generalize (Assembler.mk [] ∅).
  induction assemblies as [|ln ls IH]; intros r; [done|].
  cbn [fmap list_fmap foldl]. by rewrite line_upper, IH.
Qed.

(** ** White space around a line *)

Lemma string_app_cons (c : ascii) (s t : string) :
  String c s +:+ t = String c (s +:+ t).
Proof. reflexivity. Qed.

Lemma string_app_assoc (s t u : string) : (s +:+ t) +:+ u = s +:+ (t +:+ u).
Proof. induction s as [|c s IH]; [done|]. rewrite !string_app_cons. by rewrite IH. Qed.

Lemma string_app_nil_r (s : string) : s +:+ EmptyString = s.
Proof. induction s as [|c s IH]; [done|]. rewrite string_app_cons. by rewrite IH. Qed.

Lemma rev_app_spec (s acc : string) :
  String.rev_app s acc = String.rev s +:+ acc.
Proof.
  unfold String.rev. revert acc. induction s as [|c s IH]; intros acc; [done|].
  cbn [String.rev_app]. rewrite (IH (String c acc)), (IH (String c EmptyString)).
  by rewrite string_app_assoc.
Qed.

Lemma rev_string_app (s t : string) :
  String.rev (s +:+ t) = String.rev t +:+ String.rev s.
Proof.
  induction s as [|c s IH].
  - change (EmptyString +:+ t) with t. change (String.rev EmptyString) with EmptyString.
    by rewrite string_app_nil_r.
  - rewrite string_app_cons. unfold String.rev at 1 3. cbn [String.rev_app].
    rewrite !rev_app_spec, IH. by rewrite string_app_assoc.
Qed.

Lemma all_space_app (s t : string) :
  all_space (s +:+ t) = all_space s && all_space t.
Proof.
  induction s as [|c s IH]; [done|]. rewrite string_app_cons. cbn.
  by rewrite IH, andb_assoc.
Qed.

Lemma all_space_rev (s : string) : all_space (String.rev s) = all_space s.
Proof.
  induction s as [|c s IH]; [done|].
  unfold String.rev. cbn [String.rev_app]. rewrite rev_app_spec, all_space_app, IH.
  cbn. by rewrite andb_true_r, andb_comm.
Qed.

Lemma trimStart_all_space (s : string) :
  all_space s = true → JS.trimStart s = EmptyString.
Proof.
  induction s as [|c s IH]; [done|]. cbn. intros [-> ?]%andb_true_iff. auto.
Qed.

Lemma trimStart_app (s t : string) :
  JS.trimStart (s +:+ t) =
    if all_space s then JS.trimStart t else JS.trimStart s +:+ t.
Proof.
  induction s as [|c s IH]; [done|]. rewrite string_app_cons. cbn.
  destruct (JS.is_space c); [exact IH | done].
Qed.

Lemma all_space_trimStart (s : string) :
  all_space (JS.trimStart s) = all_space s.
Proof.
  induction s as [|c s IH]; [done|]. cbn.
  destruct (JS.is_space c) eqn:E; [done|]. cbn. by rewrite E.
Qed.

Lemma trim_pad (ws1 ws2 s : string) :
  all_space ws1 = true → all_space ws2 = true →
  JS.trim (ws1 +:+ s +:+ ws2) = JS.trim s.
Proof.
  intros H1 H2. unfold JS.trim. f_equal.
  rewrite (trimStart_app ws1), H1, (trimStart_app s).
  destruct (all_space s) eqn:Es.
  - rewrite (trimStart_all_space ws2), (trimStart_all_space s) by done. done.
  - rewrite rev_string_app, trimStart_app, all_space_rev, H2. done.
Qed.

Lemma trim_blank (s : string) : all_space s = true → JS.trim s = EmptyString.
Proof.
  intros H. unfold JS.trim. by rewrite (trimStart_all_space s).
Qed.

(** X17: white space around a source line does not count.  Padding a
    line with blanks, tabs or line breaks on either side gives the same
    program and data, and a line of white space only (or an empty one) is
    skipped. *)
Theorem assembler_ignores_padding (r : Assembler.result) (ws1 ws2 ln : string) :
  all_space ws1 = true → all_space ws2 = true →
  Assembler.line r (ws1 +:+ ln +:+ ws2) = Assembler.line r ln
  ∧ Assembler.line r ws1 = r.
Proof.
  intros H1 H2. split.
  - unfold Assembler.line. by rewrite trim_pad.
  - unfold Assembler.line. by rewrite trim_blank.
Qed.

Lemma assembler_ignores_padding_witness :
  Assembler.line (Assembler.mk [] ∅) (String "009" "  " +:+ "add 11" +:+ "  ")
  = Assembler.mk [Some 3; Some 11] ∅.
Proof.
  rewrite (proj1 (assembler_ignores_padding (Assembler.mk [] ∅)
                    (String "009" "  ") "  " "add 11" eq_refl eq_refl)).
  reflexivity.
Defined.

(** ** Assembling line by line *)

Lemma line_from_empty (r : Assembler.result) (ln : string) :
  let e := Assembler.line (Assembler.mk [] ∅) ln in
  Assembler.prog (Assembler.line r ln) = Assembler.prog r ++ Assembler.prog e
  ∧ Assembler.data (Assembler.line r ln) = Assembler.data e ∪ Assembler.data r
  ∧ (length (Assembler.prog e) <= 2)%nat.
Proof.
  unfold Assembler.line.
  repeat (case_match; cbn [Assembler.prog Assembler.data]);
    rewrite ?app_nil_r, ?app_nil_l, <- ?app_assoc, ?(left_id_L ∅ (∪)),
      <- ?insert_union_singleton_l;
    (split; [done|split; [try done|cbn; lia]]).
  by rewrite insert_union_singleton_l, insert_empty.
Qed.

Lemma foldl_line_from_empty (ls : list string) (r : Assembler.result) :
  let e := foldl Assembler.line (Assembler.mk [] ∅) ls in
  Assembler.prog (foldl Assembler.line r ls) = Assembler.prog r ++ Assembler.prog e
  ∧ Assembler.data (foldl Assembler.line r ls) = Assembler.data e ∪ Assembler.data r
  ∧ (length (Assembler.prog e) <= 2 * length ls)%nat.
Proof.
  revert r. induction ls as [|ln ls IH]; intros r.
  - cbn. rewrite app_nil_r, (left_id_L ∅ (∪)). split; [done|]. split; [done|lia].
  - cbn [foldl].
    destruct (IH (Assembler.line r ln)) as (P1 & D1 & _).
    destruct (IH (Assembler.line (Assembler.mk [] ∅) ln)) as (P2 & D2 & L2).
    destruct (line_from_empty r ln) as (P3 & D3 & L3).
    cbn zeta. rewrite P1, D1, P2, D2, P3, D3.
    split; [by rewrite app_assoc|]. split; [by rewrite (assoc_L (∪))|].
    rewrite length_app. cbn [length]. lia.
Qed.

(** X18: the assembler works line by line, with no state between lines.
    The program of a concatenated source is the concatenation of the
    programs, its data is the data of both parts with the later part
    winning on an address given twice, and a source of [n] lines gives at
    most [2 n] bytes. *)
Theorem assembler_is_compositional (l1 l2 : list string) :
  Assembler.prog (Assembler.quickAssemble (l1 ++ l2))
    = Assembler.prog (Assembler.quickAssemble l1)
      ++ Assembler.prog (Assembler.quickAssemble l2)
  ∧ Assembler.data (Assembler.quickAssemble (l1 ++ l2))
    = Assembler.data (Assembler.quickAssemble l2)
      ∪ Assembler.data (Assembler.quickAssemble l1)
  ∧ (length (Assembler.prog (Assembler.quickAssemble l1)) <= 2 * length l1)%nat.
Proof.
  unfold Assembler.quickAssemble. rewrite foldl_app.
  destruct (foldl_line_from_empty l2 (foldl Assembler.line (Assembler.mk [] ∅) l1))
    as (P & D & _).
  destruct (foldl_line_from_empty l1 (Assembler.mk [] ∅)) as (_ & _ & L).
  done.
Qed.

(** ** The sample program, on any data *)

Lemma arch_after_LOAD (c : CPU.t) :
  CPU.halted c = false → opcode c = OPCODES.LOAD →
  arch (CPU.after c) =
    (CPU.ram c, CPU.PC c + 2, RAM.read (CPU.ram c) (operand c), OPCODES.LOAD,
     RAM.read (CPU.ram c) (operand c) =? 0, false).
Proof.
  intros Hh Hop. unfold arch. step_by_opcode c;
    rewrite <- ?Z.add_assoc; change (1 + 1) with 2; congruence.
Qed.

Lemma arch_after_ADD (c : CPU.t) :
  CPU.halted c = false → opcode c = OPCODES.ADD →
  arch (CPU.after c) =
    (CPU.ram c, CPU.PC c + 2,
     (CPU.ACC c + RAM.read (CPU.ram c) (operand c)) mod 256, OPCODES.ADD,
     (CPU.ACC c + RAM.read (CPU.ram c) (operand c)) mod 256 =? 0, false).
Proof.
  intros Hh Hop. unfold arch. step_by_opcode c;
    rewrite ?land_255, <- ?(Z.add_assoc p 1 1); change (1 + 1) with 2; congruence.
Qed.

Lemma arch_after_OUT (c : CPU.t) :
  CPU.halted c = false → opcode c = OPCODES.OUT →
  arch (CPU.after c) =
    (CPU.ram c, CPU.PC c + 1, CPU.ACC c, OPCODES.OUT, CPU.zero c, false).
Proof.
  intros Hh Hop. unfold arch. step_by_opcode c; congruence.
Qed.

Lemma arch_after_STORE (c : CPU.t) :
  CPU.halted c = false → opcode c = OPCODES.STORE →
  arch (CPU.after c) =
    (RAM.write (CPU.ram c) (operand c) (CPU.ACC c), CPU.PC c + 2, CPU.ACC c,
     OPCODES.STORE, CPU.zero c, false).
Proof.
  intros Hh Hop. unfold arch. step_by_opcode c;
    rewrite <- ?Z.add_assoc; change (1 + 1) with 2; congruence.
Qed.

Lemma arch_after_HALT (c : CPU.t) :
  CPU.halted c = false → opcode c = OPCODES.HALT →
  arch (CPU.after c) =
    (CPU.ram c, CPU.PC c + 1, CPU.ACC c, OPCODES.HALT, CPU.zero c, true).
Proof.
  intros Hh Hop. unfold arch. step_by_opcode c; congruence.
Qed.

(** X19: the sample program adds, whatever the data.  On any memory of
    at least 13 cells that holds the program at addresses 0 to 7, a
    running unit with [PC = 0] is halted after exactly 5 calls of
    [step()], with [ACC = (Memory[10] + Memory[11]) mod 256], the same
    value in [Memory[12]], the zero flag telling whether it is 0, and
    every other cell as before. *)
Theorem sample_program_adds (c : CPU.t) :
  RAM.wf (CPU.ram c) → 13 <= RAM.size (CPU.ram c) →
  (∀ i b, sampleProgram !! i = Some b → RAM.read (CPU.ram c) (Z.of_nat i) = b) →
  CPU.PC c = 0 → CPU.halted c = false →
  let sum := (RAM.read (CPU.ram c) 10 + RAM.read (CPU.ram c) 11) mod 256 in
  let c' := CPU.steps 5 c in
  CPU.halted (CPU.steps 4 c) = false
  ∧ CPU.halted c' = true
  ∧ CPU.ACC c' = sum
  ∧ CPU.zero c' = (sum =? 0)
  ∧ CPU.PC c' = 8
  ∧ CPU.ram c' = RAM.write (CPU.ram c) 12 sum.
Proof.
  intros Hwf Hsz Hprog Hpc Hh sum c'. subst sum c'.
  assert (M0 : RAM.read (CPU.ram c) 0 = 1) by exact (Hprog 0%nat 1 eq_refl).
  assert (M1 : RAM.read (CPU.ram c) 1 = 10) by exact (Hprog 1%nat 10 eq_refl).
  assert (M2 : RAM.read (CPU.ram c) 2 = 3) by exact (Hprog 2%nat 3 eq_refl).
  assert (M3 : RAM.read (CPU.ram c) 3 = 11) by exact (Hprog 3%nat 11 eq_refl).
  assert (M4 : RAM.read (CPU.ram c) 4 = 7) by exact (Hprog 4%nat 7 eq_refl).
  assert (M5 : RAM.read (CPU.ram c) 5 = 2) by exact (Hprog 5%nat 2 eq_refl).
  assert (M6 : RAM.read (CPU.ram c) 6 = 12) by exact (Hprog 6%nat 12 eq_refl).
  assert (M7 : RAM.read (CPU.ram c) 7 = 255) by exact (Hprog 7%nat 255 eq_refl).
  clear Hprog.
  cbn [CPU.steps].
  set (c1 := CPU.after c). set (c2 := CPU.after c1). set (c3 := CPU.after c2).
  set (c4 := CPU.after c3). set (c5 := CPU.after c4).
  set (m := CPU.ram c) in *.
  (* LOAD 10 *)
  assert (A1 : arch c1 = (m, 2, RAM.read m 10, OPCODES.LOAD, RAM.read m 10 =? 0, false)).
  { subst c1. rewrite arch_after_LOAD by (done || (unfold opcode; by rewrite Hpc)).
    unfold operand. fold m. rewrite Hpc. change (0 + 1) with 1. by rewrite M1. }
  unfold arch in A1. injection A1 as R1 P1 C1 I1 Z1 H1.
  (* ADD 11 *)
  assert (A2 : arch c2 = (m, 4, (RAM.read m 10 + RAM.read m 11) mod 256, OPCODES.ADD,
                          (RAM.read m 10 + RAM.read m 11) mod 256 =? 0, false)).
  { subst c2. rewrite arch_after_ADD by (done || (unfold opcode; by rewrite R1, P1)).
    unfold operand. rewrite R1, P1, C1. change (2 + 1) with 3. by rewrite M3. }
  unfold arch in A2. injection A2 as R2 P2 C2 I2 Z2 H2.
  (* OUT *)
  assert (A3 : arch c3 = (m, 5, (RAM.read m 10 + RAM.read m 11) mod 256, OPCODES.OUT,
                          (RAM.read m 10 + RAM.read m 11) mod 256 =? 0, false)).
  { subst c3. rewrite arch_after_OUT by (done || (unfold opcode; by rewrite R2, P2)).
    by rewrite R2, P2, C2, Z2. }
  unfold arch in A3. injection A3 as R3 P3 C3 I3 Z3 H3.
  (* STORE 12 *)
  set (sum := (RAM.read m 10 + RAM.read m 11) mod 256) in *.
  assert (A4 : arch c4 = (RAM.write m 12 sum, 7, sum, OPCODES.STORE, sum =? 0, false)).
  { subst c4. rewrite arch_after_STORE by (done || (unfold opcode; by rewrite R3, P3)).
    unfold operand. rewrite R3, P3, C3, Z3. change (5 + 1) with 6. by rewrite M6. }
  unfold arch in A4. injection A4 as R4 P4 C4 I4 Z4 H4.
  (* HALT *)
  assert (O5 : opcode c4 = OPCODES.HALT).
  { unfold opcode. rewrite R4, P4, read_over_write_ne; [done|done|].
    destruct Hwf as [_ _]. fold m in Hsz. rewrite !Z.mod_small by lia. lia. }
  assert (A5 : arch c5 = (RAM.write m 12 sum, 8, sum, OPCODES.HALT, sum =? 0, true)).
  { subst c5. rewrite arch_after_HALT by done. by rewrite R4, P4, C4, Z4. }
  unfold arch in A5. injection A5 as R5 P5 C5 I5 Z5 H5.
  done.
Qed.

Lemma sample_program_adds_witness :
  let c := boot sampleProgram [(10, 200); (11, 100)] machine0 in
  RAM.wf (CPU.ram c)
  ∧ CPU.ACC (CPU.steps 5 c) = 44
  ∧ CPU.halted (CPU.steps 5 c) = true
  ∧ CPU.zero (CPU.steps 5 c) = false.
Proof.
  intros c.
  assert (Hwf : RAM.wf (CPU.ram c)) by (split; reflexivity).
  assert (Hsz : 13 <= RAM.size (CPU.ram c)) by (vm_compute; discriminate).
  assert (Hprog : ∀ i b, sampleProgram !! i = Some b →
                         RAM.read (CPU.ram c) (Z.of_nat i) = b).
  { intros i b Hi.
    do 8 (destruct i as [|i]; [cbn in Hi; injection Hi as <-; reflexivity|]).
    discriminate Hi. }
  destruct (sample_program_adds c Hwf Hsz Hprog eq_refl eq_refl)
    as (_ & H1 & H2 & H3 & _).
  split; [exact Hwf|]. split; [exact H2|]. split; [exact H1 | exact H3].
Defined.

(** ** A memory without a program *)

Lemma RAM_new_read (n a : Z) : 0 < n → RAM.read (RAM.new n) a = 0.
Proof.
  intros Hn.
  pose proof (RAM_read_lookup (RAM.new n) a (RAM_new_wf n Hn)) as Hl.
  apply lookup_replicate_1 in Hl. by destruct Hl.
Qed.

Lemma arch_after_NOP (c : CPU.t) :
  CPU.halted c = false → opcode c = OPCODES.NOP →
  arch (CPU.after c) =
    (CPU.ram c, CPU.PC c + 1, CPU.ACC c, OPCODES.NOP, CPU.zero c, false).
Proof.
  intros Hh Hop. unfold arch. step_by_opcode c; congruence.
Qed.

(** X20: nothing stops a unit but [HALT].  Over a fresh (all zero)
    memory every call executes a [NOP]: after [k] calls the unit is still
    running, [PC] is [k] (past the capacity once [k] reaches it, never
    reduced), and accumulator, flag and memory are untouched. *)
Theorem empty_memory_never_halts (n : Z) (bus0 : Bus.t) (k : nat) :
  0 < n →
  let c := CPU.steps k (CPU.new (RAM.new n) bus0) in
  CPU.halted c = false
  ∧ CPU.PC c = Z.of_nat k
  ∧ CPU.ACC c = 0
  ∧ CPU.zero c = false
  ∧ CPU.ram c = RAM.new n.
Proof.
  intros Hn.
  cut (∀ c0 (j : Z), CPU.ram c0 = RAM.new n → CPU.halted c0 = false →
         CPU.PC c0 = j → CPU.ACC c0 = 0 → CPU.zero c0 = false →
         let c := CPU.steps k c0 in
         CPU.halted c = false ∧ CPU.PC c = j + Z.of_nat k ∧ CPU.ACC c = 0
         ∧ CPU.zero c = false ∧ CPU.ram c = RAM.new n).
  { intros G. apply (G (CPU.new (RAM.new n) bus0) 0); done. }
  induction k as [|k IH]; intros c0 j Hr Hh Hp Ha Hz.
  - cbn. split; [done|]. split; [lia|done].
  - cbn [CPU.steps].
    assert (Hop : opcode c0 = OPCODES.NOP).
    { unfold opcode. rewrite Hr. by apply RAM_new_read. }
    pose proof (arch_after_NOP c0 Hh Hop) as A. unfold arch in A.
    injection A as R1 P1 C1 _ Z1 H1.
    destruct (IH (CPU.after c0) (j + 1)) as (? & ? & ? & ? & ?);
      [congruence | done | lia | congruence | congruence |].
    split; [done|]. split; [lia|done].
Qed.

Lemma empty_memory_never_halts_witness :
  CPU.halted (CPU.steps 70 machine0) = false
  ∧ CPU.PC (CPU.steps 70 machine0) = 70.
Proof.
  destruct (empty_memory_never_halts 64 Bus.new 70 ltac:(lia)) as (H1 & H2 & _).
  split; [exact H1 | exact H2].
Defined.
